(** * BER encoder of pyasn1 (pyasn1/codec/ber/encoder.py)

    A shallow embedding of the encoder and the properties of its
    tag/length framing, its primitive codecs, its SEQUENCE codec and its
    dispatcher.

    Python integers are unbounded, so they are [Z]; [&], [|], [>>] are
    [Z.land], [Z.lor], [Z.shiftr].  An octet string is a list of integers,
    each in [0, 256).  A [raise] is the [Raise] outcome of the [result]
    monad.  Loops that the source cannot leave on some inputs take a fuel
    argument and answer [OutOfFuel] when it runs out; loops that end on
    every input are total functions. *)

From Equations Require Import Equations.
From stdpp Require Import base option list gmap sorting pretty.
From Stdlib Require Import ZArith Lia.

Local Open Scope Z_scope.

(** ** Octets *)

Definition octets := list Z.

Definition is_octet (x : Z) : Prop := 0 <= x < 256.

(** The empty octet string, [null] of pyasn1.compat.octets. *)
Definition null : octets := [].

(** ** Outcomes: a value, an exception, or a loop that has not ended *)

Inductive exn : Type :=
| NotImplemented             (* Error('Not implemented') *)
| LengthOctetsOverflow (n : Z) (* Error('Length octets overflow (%d)') *)
| NoEncoder                  (* Error('No encoder for %s') *)
| ShortOID                   (* PyAsn1Error('Short OID %s') *)
| InitialSubIdOverflow       (* PyAsn1Error('Initial sub-ID overflow ...') *)
| SubIdOverflow (subid : Z)  (* PyAsn1Error('SubId overflow %s in %s') *)
| RealExponentOverflow       (* PyAsn1Error('Real exponent overflow') *)
| ProhibitedRealBase (b : Z) (* PyAsn1Error('Prohibited Real base %s') *)
| ValueError                 (* chr / bytes on an integer outside range(256) *)
| TypeError                  (* an accessor the value does not have *)
| IndexError                 (* an index outside the value *)
| HookError.                 (* raised by a hook of the value object *)

Inductive result (A : Type) : Type :=
| Ok (a : A)
| Raise (e : exn)
| OutOfFuel.
Arguments Ok {A} a.
Arguments Raise {A} e.
Arguments OutOfFuel {A}.

#[global] Instance result_ret : MRet result := fun A a => Ok a.
#[global] Instance result_bind : MBind result := fun A B f m =>
  match m with
  | Ok a => f a
  | Raise e => Raise e
  | OutOfFuel => OutOfFuel
  end.

Definition raises {A} (r : result A) : Prop := exists e, r = Raise e.

(** [int2oct] and [ints2octs] of pyasn1.compat.octets ([chr] and
    [bytes]): defined on integers in range(256) only. *)
Definition int2oct (x : Z) : result octets :=
  if bool_decide (0 <= x < 256) then Ok [x] else Raise ValueError.

Definition ints2octs (l : list Z) : result octets :=
  if forallb (fun x => bool_decide (0 <= x < 256)) l then Ok l
  else Raise ValueError.

(** ** Reading octets back, to state what an encoding denotes *)

(** Big-endian value of the digits [l] in base [b], from [init]. *)
Definition be_fold (b init : Z) (l : list Z) : Z :=
  fold_left (fun acc o => acc * b + o) l init.

Definition be_unsigned (b : Z) (l : list Z) : Z := be_fold b 0 l.

(** Two's-complement big-endian value of a list of octets. *)
Definition be_signed (l : octets) : Z :=
  match l with
  | [] => 0
  | o0 :: rest => be_fold 256 (if o0 <? 128 then o0 else o0 - 256) rest
  end.

(** A leading octet is redundant when it only repeats the sign bit of
    the octet after it. *)
Definition redundant_lead (o0 o1 : Z) : bool :=
  (o0 =? 0) && (Z.land o1 0x80 =? 0)
  || (o0 =? 0xff) && negb (Z.land o1 0x80 =? 0).

(** ** Tags and tag sets (pyasn1.type.tag)

    Modelled from the spec: the class and form constants of module
    [tag], which is not part of the encoder's file.  A tag is the triple
    that [asTuple] returns; a tag set lists the tags with the outermost
    one last. *)

Definition Tag : Type := Z * Z * Z.

Definition tagClassUniversal : Z := 0x00.
Definition tagClassApplication : Z := 0x40.
Definition tagClassContext : Z := 0x80.
Definition tagClassPrivate : Z := 0xC0.
Definition tagFormatSimple : Z := 0x00.
Definition tagFormatConstructed : Z := 0x20.

Definition is_tagClass (c : Z) : Prop :=
  c = tagClassUniversal \/ c = tagClassApplication \/
  c = tagClassContext \/ c = tagClassPrivate.

Definition is_tagFormat (f : Z) : Prop :=
  f = tagFormatSimple \/ f = tagFormatConstructed.

(** ** Values (pyasn1.type.univ and friends)

    The value classes are outside the encoder; it reads a value through
    its tag set, base tag set, type id and the accessors of its kind.
    [Body] gives each kind the content its accessors return.  A field of
    a SEQUENCE or SET pairs the component at a position ([None] when
    absent) with the default declared for that position. *)

Inductive RealValue : Type :=
| PlusInfinity
| MinusInfinity
| Finite (m b e : Z).

Inductive Body (T : Type) : Type :=
| EndOfOctetsV
| IntegerV (n : Z)
| BitStringV (bits : list bool)
| OctetStringV (s : octets)
| NullV
| ObjectIdentifierV (oid : list Z)
| RealV (r : RealValue)
| SequenceV (fields : list (option T * option T))
| SequenceOfV (items : list T)
| ChoiceV (component : T)
| AnyV (s : octets).
Arguments EndOfOctetsV {T}.
Arguments IntegerV {T} n.
Arguments BitStringV {T} bits.
Arguments OctetStringV {T} s.
Arguments NullV {T}.
Arguments ObjectIdentifierV {T} oid.
Arguments RealV {T} r.
Arguments SequenceV {T} fields.
Arguments SequenceOfV {T} items.
Arguments ChoiceV {T} component.
Arguments AnyV {T} s.

#[warnings="-register-all"]
Inductive Asn1Item : Type :=
  mkItem {
    getTagSet : list Tag;
    baseTagSet : list Tag;
    typeId : option Z;
    body : Body Asn1Item }.

(** [value.clone(tagSet=ts)]: the same value under another tag set. *)
Definition clone_tagSet (value : Asn1Item) (ts : list Tag) : Asn1Item :=
  mkItem ts (baseTagSet value) (typeId value) (body value).

(** [value.clone(content)]: the same type with other content. *)
Definition clone_body (value : Asn1Item) (b : Body Asn1Item) : Asn1Item :=
  mkItem (getTagSet value) (baseTagSet value) (typeId value) b.

(** [isinstance(value, base.AbstractConstructedAsn1Item)]. *)
Definition isConstructedItem (value : Asn1Item) : bool :=
  match body value with
  | SequenceV _ | SequenceOfV _ | ChoiceV _ => true
  | _ => false
  end.

(** Accessors; a value of another kind has no such accessor. *)
Definition py_int (value : Asn1Item) : result Z :=
  match body value with IntegerV n => Ok n | _ => Raise TypeError end.

Definition py_bits (value : Asn1Item) : result (list bool) :=
  match body value with BitStringV b => Ok b | _ => Raise TypeError end.

Definition py_bytes (value : Asn1Item) : result octets :=
  match body value with
  | OctetStringV s | AnyV s => Ok s
  | _ => Raise TypeError
  end.

Definition asTuple (value : Asn1Item) : result (list Z) :=
  match body value with
  | ObjectIdentifierV oid => Ok oid
  | _ => Raise TypeError
  end.

Definition py_real (value : Asn1Item) : result RealValue :=
  match body value with RealV r => Ok r | _ => Raise TypeError end.

Definition getComponent (value : Asn1Item) : result Asn1Item :=
  match body value with ChoiceV c => Ok c | _ => Raise TypeError end.

(** [len(value)] of a constructed value. *)
Definition py_len (value : Asn1Item) : result nat :=
  match body value with
  | SequenceV fields => Ok (length fields)
  | SequenceOfV items => Ok (length items)
  | _ => Raise TypeError
  end.

(** [value[idx]] of a constructed value: [None] is an absent component. *)
Definition py_getitem (value : Asn1Item) (idx : nat)
  : result (option Asn1Item) :=
  match body value with
  | SequenceV fields =>
      match fields !! idx with
      | Some (c, _) => Ok c
      | None => Raise IndexError
      end
  | SequenceOfV items =>
      match items !! idx with
      | Some c => Ok (Some c)
      | None => Raise IndexError
      end
  | _ => Raise TypeError
  end.

Definition getDefaultComponentByPosition (value : Asn1Item) (idx : nat)
  : result (option Asn1Item) :=
  match body value with
  | SequenceV fields =>
      match fields !! idx with
      | Some (_, d) => Ok d
      | None => Raise IndexError
      end
  | _ => Raise TypeError
  end.

(** The component at [idx] is an object that [value] holds: what an
    encoder does to it shows in [value].  [with_component] puts the
    component's state after a call back at its position. *)
Definition with_component (value : Asn1Item) (idx : nat) (c : Asn1Item)
  : Asn1Item :=
  match body value with
  | SequenceV fields =>
      clone_body value
        (SequenceV (alter (fun f => (Some c, f.2)) idx fields))
  | SequenceOfV items => clone_body value (SequenceOfV (<[idx := c]> items))
  | ChoiceV _ => clone_body value (ChoiceV c)
  | _ => value
  end.

(** Python's [l[a:b]]: negative indices count from the end, both are
    clamped to the sequence. *)
Definition py_clamp (n i : Z) : Z :=
  let i := if i <? 0 then i + n else i in
  Z.max 0 (Z.min n i).

Definition py_slice {A} (l : list A) (a b : Z) : list A :=
  let n := Z.of_nat (length l) in
  let a := py_clamp n a in
  let b := py_clamp n b in
  take (Z.to_nat (b - a)) (drop (Z.to_nat a) l).

(** The hooks of the value classes that the encoder calls for their
    effect or their verdict.  [setDefaultComponents] changes the value it
    is called on, so it returns the value as it is afterwards. *)
Class ValueHooks : Type := {
  setDefaultComponents : Asn1Item -> result Asn1Item;
  verifySizeSpec : Asn1Item -> result unit;
  value_eqb : Asn1Item -> Asn1Item -> bool }.

(** Modelled from the spec: [eoo.endOfOctets], the singleton of module
    [eoo], with the reserved tag (UNIVERSAL, PRIMITIVE, 0). *)
Definition endOfOctets : Asn1Item :=
  let ts := [(tagClassUniversal, tagFormatSimple, 0)] in
  mkItem ts ts None EndOfOctetsV.

(** ** AbstractItemEncoder: tag and length framing *)

Definition EncodeFun : Type :=
  Asn1Item -> bool -> Z -> result (octets * Asn1Item).

(** A concrete encoder is its [supportIndefLenMode] attribute and its
    [encodeValue] method; [encodeValue] answers the content octets, the
    is-constructed flag and the value as the call leaves it. *)
Record AbstractItemEncoder : Type := {
  supportIndefLenMode : bool;
  encodeValue : nat -> EncodeFun -> Asn1Item -> bool -> Z ->
                result (octets * bool * Asn1Item) }.

(** [while tagId:] of [encodeTag]. *)
Fixpoint tag_loop (fuel : nat) (tagId : Z) (s : octets) : result octets :=
  if tagId =? 0 then Ok s
  else match fuel with
       | O => OutOfFuel
       | S fuel =>
           o ← int2oct (Z.lor 0x80 (Z.land tagId 0x7f));
           tag_loop fuel (Z.shiftr tagId 7) (o ++ s)
       end.

Definition encodeTag (fuel : nat) (t : Tag) (isConstructed : bool)
  : result octets :=
  let '(tagClass, tagFormat, tagId) := t in
  let v := Z.lor tagClass tagFormat in
  let v := if isConstructed then Z.lor v tagFormatConstructed else v in
  if tagId <? 31 then int2oct (Z.lor v tagId)
  else
    s ← int2oct (Z.land tagId 0x7f);
    s ← tag_loop fuel (Z.shiftr tagId 7) s;
    h ← int2oct (Z.lor v 0x1F);
    Ok (h ++ s).

(** [while x: s = int2oct(x & 0xff) + s; x = x >> 8]: the loop that
    [encodeLength] runs on the length and [RealEncoder.encodeValue] on the
    exponent and on the mantissa. *)
Fixpoint be_loop (fuel : nat) (x : Z) (s : octets) : result octets :=
  if x =? 0 then Ok s
  else match fuel with
       | O => OutOfFuel
       | S fuel =>
           o ← int2oct (Z.land x 0xff);
           be_loop fuel (Z.shiftr x 8) (o ++ s)
       end.

Definition encodeLength (self : AbstractItemEncoder) (fuel : nat)
    (length : Z) (defMode : bool) : result octets :=
  if negb defMode && supportIndefLenMode self then int2oct 0x80
  else if length <? 0x80 then int2oct length
  else
    substrate ← be_loop fuel length null;
    let substrateLen := Z.of_nat (List.length substrate) in
    if 126 <? substrateLen then Raise (LengthOctetsOverflow substrateLen)
    else
      h ← int2oct (Z.lor 0x80 substrateLen);
      Ok (h ++ substrate).

Definition _encodeEndOfOctets (self : AbstractItemEncoder)
    (encodeFun : EncodeFun) (defMode : bool) : result octets :=
  if defMode || negb (supportIndefLenMode self) then Ok null
  else
    '(o, _) ← encodeFun endOfOctets defMode 0;
    Ok o.

Definition AbstractItemEncoder_encode (self : AbstractItemEncoder) (fuel : nat)
    (encodeFun : EncodeFun) (value : Asn1Item) (defMode : bool)
    (maxChunkSize : Z) : result (octets * Asn1Item) :=
  '(substrate, isConstructed, value) ←
    encodeValue self fuel encodeFun value defMode maxChunkSize;
  let tagSet := getTagSet value in
  match last tagSet with
  | Some t =>
      (* primitive form implies definite mode *)
      let defMode := if negb isConstructed then true else defMode in
      tl ← encodeTag fuel t isConstructed;
      ll ← encodeLength self fuel (Z.of_nat (List.length substrate)) defMode;
      el ← _encodeEndOfOctets self encodeFun defMode;
      Ok (tl ++ ll ++ substrate ++ el, value)
  | None => Ok (substrate, value)  (* untagged value *)
  end.

(** [AbstractItemEncoder.encodeValue]: the base class leaves it to the
    concrete encoders. *)
Definition AbstractItemEncoder_encodeValue (fuel : nat) (encodeFun : EncodeFun)
    (value : Asn1Item) (defMode : bool) (maxChunkSize : Z)
  : result (octets * bool * Asn1Item) :=
  Raise NotImplemented.

(** ** IntegerEncoder.encodeValue *)

(** Number of significant bits of [value], the sign apart: what the
    [while 1] loop consumes eight at a time. *)
Definition int_size (value : Z) : nat :=
  Z.to_nat (Z.log2 (2 * (if value <? 0 then - value - 1 else value) + 1)).

(** The [while 1] loop: push the low octet, stop at 0 or -1, else shift. *)
Equations? int_loop (value : Z) (octs : list Z) : Z * list Z
  by wf (int_size value) lt :=
  int_loop value octs with decide (value = 0 \/ value = -1) := {
    | left _ => (value, Z.land value 0xff :: octs)
    | right _ => int_loop (Z.shiftr value 8) (Z.land value 0xff :: octs) }.
Proof.
  unfold int_size.
  rewrite Z.shiftr_div_pow2 by lia. change (2 ^ 8) with 256.
  pose proof (Z.div_mod value 256 ltac:(lia)) as Hdm.
  pose proof (Z.mod_pos_bound value 256 ltac:(lia)) as Hm.
  set (u := if value <? 0 then - value - 1 else value).
  set (u' := if value `div` 256 <? 0 then - (value `div` 256) - 1
             else value `div` 256).
  assert (Hu : 1 <= u) by (subst u; destruct (Z.ltb_spec value 0); lia).
  assert (Hu' : 0 <= u' /\ 2 * (2 * u' + 1) <= 2 * u + 1).
  { subst u u'.
    destruct (Z.ltb_spec value 0), (Z.ltb_spec (value `div` 256) 0); lia. }
  assert (Z.log2 (2 * u' + 1) < Z.log2 (2 * u + 1));
    [| pose proof (Z.log2_nonneg (2 * u' + 1)); lia].
  apply Z.lt_le_trans with (Z.log2 (2 * (2 * u' + 1))).
  - rewrite Z.log2_double by lia. lia.
  - apply Z.log2_le_mono. lia.
Qed.

(** The second [while] loop: delete redundant leading octets. *)
Fixpoint int_strip (octs : list Z) : list Z :=
  match octs with
  | o0 :: (o1 :: _) as rest =>
      if redundant_lead o0 o1 then int_strip rest else octs
  | _ => octs
  end.

(** The body of [encodeValue] on [int(value)]: the list handed to
    [ints2octs]. *)
Definition int_octets (n : Z) : list Z :=
  let '(value, octs) := int_loop n [] in
  let octs :=
    if (value =? 0) && negb (Z.land (hd 0 octs) 0x80 =? 0)
    then 0 :: octs else octs in
  int_strip octs.

Definition IntegerEncoder_encodeValue (fuel : nat) (encodeFun : EncodeFun)
    (value : Asn1Item) (defMode : bool) (maxChunkSize : Z)
  : result (octets * bool * Asn1Item) :=
  n ← py_int value;
  o ← ints2octs (int_octets n);
  Ok (o, false, value).

Definition IntegerEncoder : AbstractItemEncoder :=
  {| supportIndefLenMode := false;
     encodeValue := IntegerEncoder_encodeValue |}.

(** ** EndOfOctetsEncoder and ExplicitlyTaggedItemEncoder *)

Definition EndOfOctetsEncoder_encodeValue (fuel : nat) (encodeFun : EncodeFun)
    (value : Asn1Item) (defMode : bool) (maxChunkSize : Z)
  : result (octets * bool * Asn1Item) :=
  Ok (null, false, value).

Definition EndOfOctetsEncoder : AbstractItemEncoder :=
  {| supportIndefLenMode := true;
     encodeValue := EndOfOctetsEncoder_encodeValue |}.

(** Both branches of the source clone the value under its tag set without
    the last tag; the clone is a new object, so what the inner call does
    to it does not show in [value]. *)
Definition ExplicitlyTaggedItemEncoder_encodeValue (fuel : nat)
    (encodeFun : EncodeFun) (value : Asn1Item) (defMode : bool)
    (maxChunkSize : Z) : result (octets * bool * Asn1Item) :=
  let value' :=
    if isConstructedItem value
    then clone_tagSet value (removelast (getTagSet value))
    else clone_tagSet value (removelast (getTagSet value)) in
  '(o, _) ← encodeFun value' defMode maxChunkSize;
  Ok (o, true, value).

Definition explicitlyTaggedItemEncoder : AbstractItemEncoder :=
  {| supportIndefLenMode := true;
     encodeValue := ExplicitlyTaggedItemEncoder_encodeValue |}.

(** ** BitStringEncoder and OctetStringEncoder *)

(** [while p < l] over the bits: [r] maps an octet index to the octet
    built so far. *)
Fixpoint bits_loop (bits : list bool) (p : Z) (r : gmap Z Z) (j : Z)
  : gmap Z Z * Z :=
  match bits with
  | [] => (r, j)
  | bit :: rest =>
      let i := p `div` 8 in
      let j := p `mod` 8 in
      let r := <[i := Z.lor (default 0 (r !! i))
                            (Z.shiftl (Z.b2z bit) (7 - j))]> r in
      bits_loop rest (p + 1) r j
  end.

(** The chunk loop of the string encoders: [chunk pos] is the clone of
    the slice that starts at [pos]; an empty one ends the loop. *)
Fixpoint chunk_loop (fuel : nat) (encodeFun : EncodeFun)
    (chunk : Z -> Asn1Item) (empty : Asn1Item -> bool)
    (defMode : bool) (maxChunkSize : Z) (pos : Z) (substrate : octets)
  : result octets :=
  let v := chunk pos in
  if empty v then Ok substrate
  else match fuel with
       | O => OutOfFuel
       | S fuel =>
           '(o, _) ← encodeFun v defMode maxChunkSize;
           chunk_loop fuel encodeFun chunk empty defMode maxChunkSize
                      (pos + maxChunkSize) (substrate ++ o)
       end.

Definition BitStringEncoder_encodeValue (fuel : nat) (encodeFun : EncodeFun)
    (value : Asn1Item) (defMode : bool) (maxChunkSize : Z)
  : result (octets * bool * Asn1Item) :=
  bits ← py_bits value;
  if (maxChunkSize =? 0)
     || (Z.of_nat (length bits) <=? maxChunkSize * 8) then
    let '(r, j) := bits_loop bits 0 ∅ 7 in
    let keys := merge_sort Z.le (map_to_list r).*1 in
    h ← int2oct (7 - j);
    t ← ints2octs ((fun k => default 0 (r !! k)) <$> keys);
    Ok (h ++ t, false, value)
  else
    substrate ←
      chunk_loop fuel encodeFun
        (fun pos => clone_body value
           (BitStringV (py_slice bits (pos * 8)
                                 (pos * 8 + maxChunkSize * 8))))
        (fun v => match body v with BitStringV [] => true | _ => false end)
        defMode maxChunkSize 0 null;
    Ok (substrate, true, value).

Definition BitStringEncoder : AbstractItemEncoder :=
  {| supportIndefLenMode := true;
     encodeValue := BitStringEncoder_encodeValue |}.

Definition OctetStringEncoder_encodeValue (fuel : nat) (encodeFun : EncodeFun)
    (value : Asn1Item) (defMode : bool) (maxChunkSize : Z)
  : result (octets * bool * Asn1Item) :=
  s ← py_bytes value;
  if (maxChunkSize =? 0) || (Z.of_nat (length s) <=? maxChunkSize) then
    Ok (s, false, value)
  else
    substrate ←
      chunk_loop fuel encodeFun
        (fun pos => clone_body value
           (OctetStringV (py_slice s pos (pos + maxChunkSize))))
        (fun v => match body v with OctetStringV [] => true | _ => false end)
        defMode maxChunkSize 0 null;
    Ok (substrate, true, value).

Definition OctetStringEncoder : AbstractItemEncoder :=
  {| supportIndefLenMode := true;
     encodeValue := OctetStringEncoder_encodeValue |}.

(** ** NullEncoder *)

Definition NullEncoder_encodeValue (fuel : nat) (encodeFun : EncodeFun)
    (value : Asn1Item) (defMode : bool) (maxChunkSize : Z)
  : result (octets * bool * Asn1Item) :=
  Ok (null, false, value).

Definition NullEncoder : AbstractItemEncoder :=
  {| supportIndefLenMode := false;
     encodeValue := NullEncoder_encodeValue |}.

(** ** ObjectIdentifierEncoder *)

Definition precomputedValues : gmap (list Z) (list Z) :=
  <[ [1; 3; 6; 1; 4] := [43; 6; 1; 4] ]>
    (<[ [1; 3; 6; 1; 2] := [43; 6; 1; 2] ]> ∅).

(** [while subid > 0]: pack a large sub-identifier, seven bits a time. *)
Equations? oid_pack_loop (subid : Z) (res : list Z) : list Z
  by wf (Z.to_nat (Z.log2 (2 * subid + 1))) lt :=
  oid_pack_loop subid res with decide (0 < subid) := {
    | left _ => oid_pack_loop (Z.shiftr subid 7)
                  (Z.lor 0x80 (Z.land subid 0x7f) :: res)
    | right _ => res }.
Proof.
  rewrite Z.shiftr_div_pow2 by lia. change (2 ^ 7) with 128.
  pose proof (Z.div_mod subid 128 ltac:(lia)) as Hdm.
  pose proof (Z.mod_pos_bound subid 128 ltac:(lia)) as Hm.
  assert (Z.log2 (2 * (subid `div` 128) + 1) < Z.log2 (2 * subid + 1));
    [| pose proof (Z.log2_nonneg (2 * (subid `div` 128) + 1)); lia].
  apply Z.lt_le_trans with (Z.log2 (2 * (2 * (subid `div` 128) + 1))).
  - rewrite Z.log2_double by lia. lia.
  - apply Z.log2_le_mono. lia.
Qed.

(** [for subid in oid[index:]]. *)
Fixpoint oid_subids (subids : list Z) (octs : list Z) : result (list Z) :=
  match subids with
  | [] => Ok octs
  | subid :: rest =>
      if (-1 <? subid) && (subid <? 128) then
        (* Optimize for the common case *)
        oid_subids rest (octs ++ [Z.land subid 0x7f])
      else if (subid <? 0) || (0xFFFFFFFF <? subid) then
        Raise (SubIdOverflow subid)
      else
        (* Pack large Sub-Object IDs *)
        let res := oid_pack_loop (Z.shiftr subid 7) [Z.land subid 0x7f] in
        oid_subids rest (octs ++ res)
  end.

(** The body of [encodeValue] on [value.asTuple()]. *)
Definition oid_octets (oid : list Z) : result (list Z) :=
  match precomputedValues !! take 5 oid with
  | Some octs => oid_subids (drop 5 oid) octs
  | None =>
      match oid with
      | first :: second :: rest =>
          (* Build the first twos *)
          let subid := first * 40 in
          let subid := subid + second in
          if (subid <? 0) || (0xff <? subid) then Raise InitialSubIdOverflow
          else oid_subids rest [subid]
      | _ => Raise ShortOID
      end
  end.

Definition ObjectIdentifierEncoder_encodeValue (fuel : nat)
    (encodeFun : EncodeFun) (value : Asn1Item) (defMode : bool)
    (maxChunkSize : Z) : result (octets * bool * Asn1Item) :=
  oid ← asTuple value;
  octs ← oid_octets oid;
  o ← ints2octs octs;
  Ok (o, false, value).

Definition ObjectIdentifierEncoder : AbstractItemEncoder :=
  {| supportIndefLenMode := false;
     encodeValue := ObjectIdentifierEncoder_encodeValue |}.

(** ** RealEncoder *)

(** [str2octs] of an ASCII string, and ['%d' % z]. *)
Definition str2octs (s : string) : octets :=
  (fun c => Z.of_N (Ascii.N_of_ascii c)) <$> String.list_ascii_of_string s.

Definition fmt_d (z : Z) : octets := str2octs (pretty z).

(** [while m & 0x1 == 0]: mantissa normalization. *)
Fixpoint real_normalize (fuel : nat) (m e : Z) : result (Z * Z) :=
  if negb (Z.land m 0x1 =? 0) then Ok (m, e)
  else match fuel with
       | O => OutOfFuel
       | S fuel => real_normalize fuel (Z.shiftr m 1) (e + 1)
       end.

(** The choice of the exponent-length bits of the first octet. *)
Definition real_exp_header (fo : Z) (eo : octets) : result (Z * octets) :=
  let n := Z.of_nat (length eo) in
  if n =? 1 then Ok (fo, eo)
  else if n =? 2 then Ok (Z.lor fo 1, eo)
  else if n =? 3 then Ok (Z.lor fo 2, eo)
  else
    h ← int2oct (n `div` 0xff + 1);
    Ok (Z.lor fo 3, h ++ eo).

(** The mantissa is an integer here, so [while int(m) != m] (drop
    floating point) has nothing to do. *)
Definition real_octets (fuel : nat) (r : RealValue) : result octets :=
  match r with
  | PlusInfinity => int2oct 0x40
  | MinusInfinity => int2oct 0x41
  | Finite m b e =>
      if m =? 0 then Ok null
      else if b =? 10 then
        Ok ([3] ++ fmt_d m ++ str2octs "E"
                ++ (if e =? 0 then str2octs "+" else []) ++ fmt_d e)
      else if b =? 2 then
        let fo := 0x80 in  (* binary enoding *)
        let '(fo, m) := if m <? 0 then (Z.lor fo 0x40, - m) else (fo, m) in
        '(m, e) ← real_normalize fuel m e;
        eo ← be_loop fuel e null;
        let n := Z.of_nat (length eo) in
        if 0xff <? n then Raise RealExponentOverflow
        else
          '(fo, eo) ← real_exp_header fo eo;
          po ← be_loop fuel m null;
          h ← int2oct fo;
          Ok (h ++ eo ++ po)
      else Raise (ProhibitedRealBase b)
  end.

Definition RealEncoder_encodeValue (fuel : nat) (encodeFun : EncodeFun)
    (value : Asn1Item) (defMode : bool) (maxChunkSize : Z)
  : result (octets * bool * Asn1Item) :=
  r ← py_real value;
  o ← real_octets fuel r;
  Ok (o, false, value).

Definition RealEncoder : AbstractItemEncoder :=
  {| supportIndefLenMode := true;
     encodeValue := RealEncoder_encodeValue |}.

(** ** SequenceEncoder, SequenceOfEncoder, ChoiceEncoder, AnyEncoder *)

Section ConstructedEncoders.
Context `{ValueHooks}.

(** [while idx > 0] of [SequenceEncoder.encodeValue], from the last
    position down; each encoding goes in front of the later ones. *)
Fixpoint seq_loop (encodeFun : EncodeFun) (defMode : bool)
    (maxChunkSize : Z) (idx : nat) (value : Asn1Item) (substrate : octets)
  : result (octets * Asn1Item) :=
  match idx with
  | O => Ok (substrate, value)
  | S idx =>
      c ← py_getitem value idx;
      match c with
      | None =>  (* Optional component *)
          seq_loop encodeFun defMode maxChunkSize idx value substrate
      | Some c =>
          component ← getDefaultComponentByPosition value idx;
          if match component with
             | Some d => value_eqb d c
             | None => false
             end
          then seq_loop encodeFun defMode maxChunkSize idx value substrate
          else
            '(o, c') ← encodeFun c defMode maxChunkSize;
            seq_loop encodeFun defMode maxChunkSize idx
                     (with_component value idx c') (o ++ substrate)
      end
  end.

Definition SequenceEncoder_encodeValue (fuel : nat) (encodeFun : EncodeFun)
    (value : Asn1Item) (defMode : bool) (maxChunkSize : Z)
  : result (octets * bool * Asn1Item) :=
  value ← setDefaultComponents value;
  _ ← verifySizeSpec value;
  idx ← py_len value;
  '(substrate, value) ←
    seq_loop encodeFun defMode maxChunkSize idx value null;
  Ok (substrate, true, value).

Definition SequenceEncoder : AbstractItemEncoder :=
  {| supportIndefLenMode := true;
     encodeValue := SequenceEncoder_encodeValue |}.

Fixpoint seqof_loop (encodeFun : EncodeFun) (defMode : bool)
    (maxChunkSize : Z) (idx : nat) (value : Asn1Item) (substrate : octets)
  : result (octets * Asn1Item) :=
  match idx with
  | O => Ok (substrate, value)
  | S idx =>
      c ← py_getitem value idx;
      match c with
      | None => Raise TypeError
      | Some c =>
          '(o, c') ← encodeFun c defMode maxChunkSize;
          seqof_loop encodeFun defMode maxChunkSize idx
                     (with_component value idx c') (o ++ substrate)
      end
  end.

Definition SequenceOfEncoder_encodeValue (fuel : nat)
    (encodeFun : EncodeFun) (value : Asn1Item) (defMode : bool)
    (maxChunkSize : Z) : result (octets * bool * Asn1Item) :=
  _ ← verifySizeSpec value;
  idx ← py_len value;
  '(substrate, value) ←
    seqof_loop encodeFun defMode maxChunkSize idx value null;
  Ok (substrate, true, value).

Definition SequenceOfEncoder : AbstractItemEncoder :=
  {| supportIndefLenMode := true;
     encodeValue := SequenceOfEncoder_encodeValue |}.

Definition ChoiceEncoder_encodeValue (fuel : nat) (encodeFun : EncodeFun)
    (value : Asn1Item) (defMode : bool) (maxChunkSize : Z)
  : result (octets * bool * Asn1Item) :=
  c ← getComponent value;
  '(o, c') ← encodeFun c defMode maxChunkSize;
  Ok (o, true, with_component value 0 c').

Definition ChoiceEncoder : AbstractItemEncoder :=
  {| supportIndefLenMode := true;
     encodeValue := ChoiceEncoder_encodeValue |}.

Definition AnyEncoder_encodeValue (fuel : nat) (encodeFun : EncodeFun)
    (value : Asn1Item) (defMode : bool) (maxChunkSize : Z)
  : result (octets * bool * Asn1Item) :=
  s ← py_bytes value;
  Ok (s, negb defMode, value).

Definition AnyEncoder : AbstractItemEncoder :=
  {| supportIndefLenMode := true;
     encodeValue := AnyEncoder_encodeValue |}.

(** ** The codec maps

    Modelled from the spec: the tag sets of the universal, character
    and useful types (modules [univ], [char], [useful]) and the type
    ids of the ambiguous types, by their X.690 tag numbers. *)

Definition univTagSet (tagFormat tagId : Z) : list Tag :=
  [(tagClassUniversal, tagFormat, tagId)].

Definition Set_typeId : Z := 4.
Definition SetOf_typeId : Z := 1.
Definition Sequence_typeId : Z := 3.
Definition SequenceOf_typeId : Z := 2.
Definition Choice_typeId : Z := 5.
Definition Any_typeId : Z := 6.

(** A dict display: a later entry replaces an earlier one of the same
    key. *)
Definition dict {K} `{Countable K} {V} (l : list (K * V)) : gmap K V :=
  fold_left (fun m kv => <[kv.1 := kv.2]> m) l ∅.

Definition tagMap : gmap (list Tag) AbstractItemEncoder :=
  dict [
    (getTagSet endOfOctets, EndOfOctetsEncoder);
    (univTagSet tagFormatSimple 1, IntegerEncoder);       (* Boolean *)
    (univTagSet tagFormatSimple 2, IntegerEncoder);       (* Integer *)
    (univTagSet tagFormatSimple 3, BitStringEncoder);
    (univTagSet tagFormatSimple 4, OctetStringEncoder);
    (univTagSet tagFormatSimple 5, NullEncoder);
    (univTagSet tagFormatSimple 6, ObjectIdentifierEncoder);
    (univTagSet tagFormatSimple 10, IntegerEncoder);      (* Enumerated *)
    (univTagSet tagFormatSimple 9, RealEncoder);
    (* Sequence & Set have same tags as SequenceOf & SetOf *)
    (univTagSet tagFormatConstructed 16, SequenceOfEncoder);
    (univTagSet tagFormatConstructed 17, SequenceOfEncoder);
    ([], ChoiceEncoder);
    (* character string types *)
    (univTagSet tagFormatSimple 12, OctetStringEncoder);  (* UTF8String *)
    (univTagSet tagFormatSimple 18, OctetStringEncoder);  (* NumericString *)
    (univTagSet tagFormatSimple 19, OctetStringEncoder);  (* PrintableString *)
    (univTagSet tagFormatSimple 20, OctetStringEncoder);  (* TeletexString *)
    (univTagSet tagFormatSimple 21, OctetStringEncoder);  (* VideotexString *)
    (univTagSet tagFormatSimple 22, OctetStringEncoder);  (* IA5String *)
    (univTagSet tagFormatSimple 25, OctetStringEncoder);  (* GraphicString *)
    (univTagSet tagFormatSimple 26, OctetStringEncoder);  (* VisibleString *)
    (univTagSet tagFormatSimple 27, OctetStringEncoder);  (* GeneralString *)
    (univTagSet tagFormatSimple 28, OctetStringEncoder);  (* UniversalString *)
    (univTagSet tagFormatSimple 30, OctetStringEncoder);  (* BMPString *)
    (* useful types *)
    (univTagSet tagFormatSimple 24, OctetStringEncoder);  (* GeneralizedTime *)
    (univTagSet tagFormatSimple 23, OctetStringEncoder)   (* UTCTime *)
  ].

(** Type-to-codec map for ambiguous ASN.1 types. *)
Definition typeMap : gmap Z AbstractItemEncoder :=
  dict [
    (Set_typeId, SequenceEncoder);
    (SetOf_typeId, SequenceOfEncoder);
    (Sequence_typeId, SequenceEncoder);
    (SequenceOf_typeId, SequenceOfEncoder);
    (Choice_typeId, ChoiceEncoder);
    (Any_typeId, AnyEncoder)
  ].
End ConstructedEncoders.

(** ** Encoder: the dispatcher *)

Record Encoder : Type := {
  Encoder_tagMap : gmap (list Tag) AbstractItemEncoder;
  Encoder_typeMap : gmap Z AbstractItemEncoder }.

(** The tag-set and base-tag-set layers of [__call__]. *)
Definition select_by_tagSet (self : Encoder) (value : Asn1Item)
  : result AbstractItemEncoder :=
  let tagSet := getTagSet value in
  match Encoder_tagMap self !! tagSet with
  | Some concreteEncoder => Ok concreteEncoder
  | None =>
      let baseTagSet := baseTagSet value in
      match Encoder_tagMap self !! baseTagSet with
      | Some concreteEncoder => Ok concreteEncoder
      | None => Raise NoEncoder
      end
  end.

(** The choice of [concreteEncoder] in [__call__]. *)
Definition select_encoder (self : Encoder) (value : Asn1Item)
  : result AbstractItemEncoder :=
  let tagSet := getTagSet value in
  if (1 <? length tagSet)%nat then Ok explicitlyTaggedItemEncoder
  else
    match typeId value with
    | Some tid =>
        match Encoder_typeMap self !! tid with
        | Some concreteEncoder => Ok concreteEncoder
        | None => select_by_tagSet self value
        end
    | None => select_by_tagSet self value
    end.

(** [Encoder.__call__]; the encoder hands itself to the concrete encoder
    as [encodeFun], one unit of fuel a level. *)
Fixpoint Encoder_call (self : Encoder) (fuel : nat) (value : Asn1Item)
    (defMode : bool) (maxChunkSize : Z) : result (octets * Asn1Item) :=
  match fuel with
  | O => OutOfFuel
  | S fuel =>
      concreteEncoder ← select_encoder self value;
      AbstractItemEncoder_encode concreteEncoder fuel
        (Encoder_call self fuel) value defMode maxChunkSize
  end.

(** [encode = Encoder(tagMap, typeMap)]. *)
Definition encode `{ValueHooks} : nat -> EncodeFun :=
  Encoder_call {| Encoder_tagMap := tagMap; Encoder_typeMap := typeMap |}.

(** ** A value-class instance, for running the encoder

    Modelled from the spec: the hooks of the SEQUENCE/SET value class,
    which is outside the encoder's file.  [setDefaultComponents] puts the
    declared default at every absent position that has one,
    [verifySizeSpec] accepts, and two values are equal when their
    contents are. *)

Definition fill_default (f : option Asn1Item * option Asn1Item)
  : option Asn1Item * option Asn1Item :=
  match f with
  | (None, Some d) => (Some d, Some d)
  | _ => f
  end.

Definition univ_setDefaultComponents (value : Asn1Item) : result Asn1Item :=
  match body value with
  | SequenceV fields => Ok (clone_body value (SequenceV (fill_default <$> fields)))
  | _ => Raise TypeError
  end.

Fixpoint univ_eqb (a b : Asn1Item) {struct a} : bool :=
  match body a, body b with
  | EndOfOctetsV, EndOfOctetsV => true
  | IntegerV n, IntegerV m => n =? m
  | BitStringV x, BitStringV y => bool_decide (x = y)
  | OctetStringV x, OctetStringV y => bool_decide (x = y)
  | NullV, NullV => true
  | ObjectIdentifierV x, ObjectIdentifierV y => bool_decide (x = y)
  | RealV (Finite m b e), RealV (Finite m' b' e') =>
      (m =? m') && (b =? b') && (e =? e')
  | RealV PlusInfinity, RealV PlusInfinity => true
  | RealV MinusInfinity, RealV MinusInfinity => true
  | SequenceV fa, SequenceV fb =>
      (fix go (la lb : list (option Asn1Item * option Asn1Item)) : bool :=
         match la, lb with
         | [], [] => true
         | (ca, _) :: la, (cb, _) :: lb =>
             match ca, cb with
             | Some x, Some y => univ_eqb x y
             | None, None => true
             | _, _ => false
             end && go la lb
         | _, _ => false
         end) fa fb
  | SequenceOfV ia, SequenceOfV ib =>
      (fix go (la lb : list Asn1Item) : bool :=
         match la, lb with
         | [], [] => true
         | x :: la, y :: lb => univ_eqb x y && go la lb
         | _, _ => false
         end) ia ib
  | ChoiceV x, ChoiceV y => univ_eqb x y
  | AnyV x, AnyV y => bool_decide (x = y)
  | _, _ => false
  end.

Definition univHooks : ValueHooks :=
  {| setDefaultComponents := univ_setDefaultComponents;
     verifySizeSpec := fun _ => Ok ();
     value_eqb := univ_eqb |}.

(** Values of the universal types, as module [univ] tags them. *)
Definition Integer (n : Z) : Asn1Item :=
  let ts := univTagSet tagFormatSimple 2 in
  mkItem ts ts None (IntegerV n).

Definition OctetString (s : octets) : Asn1Item :=
  let ts := univTagSet tagFormatSimple 4 in
  mkItem ts ts None (OctetStringV s).

Definition Null : Asn1Item :=
  let ts := univTagSet tagFormatSimple 5 in
  mkItem ts ts None NullV.

Definition ObjectIdentifier (oid : list Z) : Asn1Item :=
  let ts := univTagSet tagFormatSimple 6 in
  mkItem ts ts None (ObjectIdentifierV oid).

Definition Real (m b e : Z) : Asn1Item :=
  let ts := univTagSet tagFormatSimple 9 in
  mkItem ts ts None (RealV (Finite m b e)).

Definition Sequence (fields : list (option Asn1Item * option Asn1Item))
  : Asn1Item :=
  let ts := univTagSet tagFormatConstructed 16 in
  mkItem ts ts (Some Sequence_typeId) (SequenceV fields).

(** ** Vocabulary of the properties *)

(** An encoding of an integer without a redundant leading octet. *)
Definition int_minimal (l : list Z) : Prop :=
  match l with
  | o0 :: o1 :: _ => redundant_lead o0 o1 = false
  | _ => True
  end.

(** [l] is [x] in base 128, big-endian, the high bit set on all octets
    but the last. *)
Definition base128_of (x : Z) (l : octets) : Prop :=
  exists init lst,
    l = init ++ [lst] /\
    Forall (fun o => is_octet o /\ Z.testbit o 7 = true) init /\
    is_octet lst /\ Z.testbit lst 7 = false /\
    be_unsigned 128 ((fun o => Z.land o 0x7f) <$> l) = x.

(** A sub-identifier after the first two that the encoder refuses. *)
Definition subid_out_of_range (subid : Z) : Prop :=
  subid < 0 \/ 2 ^ 32 - 1 < subid.

(** The OIDs that the encoder refuses. *)
Definition oid_refused (oid : list Z) : Prop :=
  (length oid < 2)%nat \/
  exists first second rest,
    oid = first :: second :: rest /\
    (~ (0 <= 40 * first + second <= 255) \/ Exists subid_out_of_range rest).

(** The components that are present and differ from the default declared
    for their position, in positional order. *)
Definition seq_selected `{ValueHooks}
    (fields : list (option Asn1Item * option Asn1Item)) : list Asn1Item :=
  omap (fun f =>
          match f with
          | (Some c, Some d) => if value_eqb d c then None else Some c
          | (Some c, None) => Some c
          | (None, _) => None
          end) fields.

(** No value inside [v] is changed by its setDefaultComponents hook. *)
Fixpoint hook_stable `{ValueHooks} (v : Asn1Item) : Prop :=
  (forall v', setDefaultComponents v = Ok v' -> v' = v) /\
  match body v with
  | SequenceV fields =>
      (fix go (l : list (option Asn1Item * option Asn1Item)) : Prop :=
         match l with
         | [] => True
         | (Some c, _) :: l => hook_stable c /\ go l
         | (None, _) :: l => go l
         end) fields
  | SequenceOfV items =>
      (fix go (l : list Asn1Item) : Prop :=
         match l with
         | [] => True
         | c :: l => hook_stable c /\ go l
         end) items
  | ChoiceV c => hook_stable c
  | _ => True
  end.

(** [encodeFun] gives back unchanged the values that the hook leaves
    alone. *)
Definition preserves `{ValueHooks} (encodeFun : EncodeFun) : Prop :=
  forall v defMode maxChunkSize out v',
    hook_stable v -> encodeFun v defMode maxChunkSize = Ok (out, v') -> v' = v.

Definition encodeValue_preserves `{ValueHooks} (enc : AbstractItemEncoder) : Prop :=
  forall fuel encodeFun v defMode maxChunkSize s isConstructed v',
    preserves encodeFun -> hook_stable v ->
    encodeValue enc fuel encodeFun v defMode maxChunkSize
      = Ok (s, isConstructed, v') ->
    v' = v.

(** What the encoder does without the table of precomputed prefixes. *)
Definition oid_octets_plain (oid : list Z) : result (list Z) :=
  match oid with
  | first :: second :: rest =>
      if (first * 40 + second <? 0) || (0xff <? first * 40 + second)
      then Raise InitialSubIdOverflow
      else oid_subids rest [first * 40 + second]
  | _ => Raise ShortOID
  end.

(** The octets of one sub-identifier: base 128, one octet below 128, no
    leading 0x80 otherwise. *)
Definition subid_octets (subid : Z) (chunk : octets) : Prop :=
  base128_of subid chunk /\
  (subid < 128 -> chunk = [subid]) /\
  (128 <= subid -> hd 0 chunk <> 0x80).

(** [r] cut into pieces of [n] elements, the last one possibly shorter. *)
Equations? chunks {A} (n : nat) (r : list A) : list (list A)
  by wf (length r) lt :=
  chunks n r with decide (n = 0%nat \/ r = []) := {
    | left _ => []
    | right _ => take n r :: chunks n (drop n r) }.
Proof.
  rewrite length_drop. destruct r; [naive_solver | simpl; lia].
Qed.

(** The dictionary of the BIT STRING loop after the bits [done]: one
    entry per octet begun, each with the bits of its eight positions, the
    first bit highest. *)
Definition bits_packed (done : list bool) (r : gmap Z Z) : Prop :=
  (forall i, is_Some (r !! i) <-> 0 <= i /\ 8 * i < Z.of_nat (length done)) /\
  (forall i x, r !! i = Some x ->
     0 <= x /\
     forall b, 0 <= b ->
       Z.testbit x b
       = (b <? 8) && default false (done !! Z.to_nat (8 * i + 7 - b))).

(** * Properties *)

(** ** Bits and big-endian digits *)

Lemma land_0x80_testbit (o : Z) :
  (Z.land o 0x80 =? 0) = negb (Z.testbit o 7).
Proof.
  change 0x80 with (2 ^ 7).
  destruct (Z.testbit o 7) eqn:E; simpl.
  - apply Z.eqb_neq. intros H0.
    assert (Z.testbit (Z.land o (2 ^ 7)) 7 = true) as Ht.
    { rewrite Z.land_spec, E, Z.pow2_bits_true by lia. done. }
    rewrite H0, Z.bits_0 in Ht. done.
  - apply Z.eqb_eq, Z.bits_inj'. intros n Hn.
    rewrite Z.land_spec, Z.bits_0, Z.pow2_bits_eqb by lia.
    destruct (Z.eqb_spec 7 n) as [<-|]; [by rewrite E | apply andb_false_r].
Qed.

Lemma octet_testbit_7 (o : Z) : is_octet o -> Z.testbit o 7 = (128 <=? o).
Proof.
  intros [Hlo Hhi].
  destruct (Z.leb_spec 128 o).
  - apply Z.testbit_true; [lia|]. change (2 ^ 7) with 128.
    pose proof (Z.div_mod o 128 ltac:(lia)).
    pose proof (Z.mod_pos_bound o 128 ltac:(lia)).
    assert (o `div` 128 = 1) as -> by lia. done.
  - apply Z.bits_above_log2; [lia|].
    destruct (decide (o = 0)) as [->|]; [done|].
    apply Z.log2_lt_pow2; lia.
Qed.

Lemma land_0xff (x : Z) : Z.land x 0xff = x `mod` 256.
Proof. change 0xff with (Z.ones 8). by rewrite Z.land_ones by lia. Qed.

Lemma land_0x7f (x : Z) : Z.land x 0x7f = x `mod` 128.
Proof. change 0x7f with (Z.ones 7). by rewrite Z.land_ones by lia. Qed.

Lemma shiftr_8 (x : Z) : Z.shiftr x 8 = x `div` 256.
Proof. by rewrite Z.shiftr_div_pow2 by lia. Qed.

Lemma shiftr_7 (x : Z) : Z.shiftr x 7 = x `div` 128.
Proof. by rewrite Z.shiftr_div_pow2 by lia. Qed.

Lemma be_fold_snoc b init l d :
  be_fold b init (l ++ [d]) = be_fold b init l * b + d.
Proof. unfold be_fold. by rewrite fold_left_app. Qed.

Lemma be_fold_init b init l :
  be_fold b init l = init * b ^ Z.of_nat (length l) + be_fold b 0 l.
Proof.
  revert init. induction l as [|d l IH] using rev_ind; intros init.
  - simpl. lia.
  - rewrite !be_fold_snoc, IH, length_app. simpl.
    rewrite Nat2Z.inj_add, Z.pow_add_r by lia. simpl (Z.of_nat 1).
    rewrite Z.pow_1_r. lia.
Qed.

Lemma be_fold_bound b l :
  0 < b -> Forall (fun o => 0 <= o < b) l ->
  0 <= be_fold b 0 l < b ^ Z.of_nat (length l).
Proof.
  intros Hb. induction l as [|d l IH] using rev_ind; intros Hl.
  - simpl. lia.
  - apply Forall_app in Hl as [Hl Hd]. apply Forall_inv in Hd.
    specialize (IH Hl). rewrite be_fold_snoc, length_app. simpl.
    rewrite Nat2Z.inj_add, Z.pow_add_r by lia. simpl (Z.of_nat 1).
    rewrite Z.pow_1_r.
    set (F := be_fold b 0 l) in *. set (P := b ^ Z.of_nat (length l)) in *.
    clearbody F P. nia.
Qed.

Lemma be_signed_snoc l d :
  l <> [] -> be_signed (l ++ [d]) = be_signed l * 256 + d.
Proof. destruct l as [|o0 rest]; [done|]. intros _. simpl. apply be_fold_snoc. Qed.

(** The value of [k] octets lies in the two's-complement range of [k]
    octets. *)
Lemma be_signed_range o0 rest :
  Forall is_octet (o0 :: rest) ->
  -128 * 256 ^ Z.of_nat (length rest) <= be_signed (o0 :: rest)
    < 128 * 256 ^ Z.of_nat (length rest).
Proof.
  intros Hl. apply Forall_cons in Hl as [H0 Hrest].
  simpl. rewrite be_fold_init.
  pose proof (be_fold_bound 256 rest ltac:(lia) Hrest) as Hb.
  unfold is_octet in H0.
  destruct (Z.ltb_spec o0 128); nia.
Qed.

(** ** C1: the INTEGER encoder *)


Lemma int_loop_spec value octs :
  exists f pre,
    int_loop value octs = (f, pre ++ octs) /\ (f = 0 \/ f = -1) /\
    pre <> [] /\ Forall is_octet pre /\ be_signed pre = value /\
    hd 0 pre = Z.land f 0xff.
Proof.
  funelim (int_loop value octs).
  - exists value, [Z.land value 0xff]. rewrite land_0xff.
    split; [done|]. split; [done|]. split; [done|].
    split; [apply Forall_singleton, Z.mod_pos_bound; lia|].
    split; [|done]. destruct o as [-> | ->]; done.
  - destruct H as (f & pre & Hrun & Hf & Hpre & Hoct & Hval & Hhd).
    exists f, (pre ++ [Z.land value 0xff]).
    rewrite Hrun, <- app_assoc. split; [done|]. split; [done|].
    split; [by destruct pre|]. rewrite land_0xff.
    split; [apply Forall_app; split; [done|];
            apply Forall_singleton, Z.mod_pos_bound; lia|].
    split.
    + rewrite be_signed_snoc, Hval, shiftr_8 by done.
      pose proof (Z.div_mod value 256 ltac:(lia)). lia.
    + destruct pre; [done|]. by rewrite <- Hhd.
Qed.

Lemma int_strip_cons2 o0 o1 rest :
  int_strip (o0 :: o1 :: rest) =
  if redundant_lead o0 o1 then int_strip (o1 :: rest) else o0 :: o1 :: rest.
Proof. done. Qed.

Lemma int_strip_spec l :
  Forall is_octet l -> l <> [] ->
  be_signed (int_strip l) = be_signed l /\ Forall is_octet (int_strip l) /\
  int_strip l <> [] /\ int_minimal (int_strip l).
Proof.
  induction l as [|o0 l IH]; intros Hoct Hne; [done|].
  destruct l as [|o1 rest]; [done|].
  rewrite int_strip_cons2. destruct (redundant_lead o0 o1) eqn:Hred.
  - apply Forall_cons in Hoct as [H0 Hoct].
    destruct (IH Hoct ltac:(done)) as (Hv & Ho & Hn & Hm).
    split; [|done]. rewrite Hv.
    pose proof (Forall_inv Hoct) as H1. unfold redundant_lead in Hred.
    rewrite land_0x80_testbit, negb_involutive, octet_testbit_7 in Hred by done.
    cbn [be_signed]. unfold be_fold. cbn [fold_left]. f_equal.
    unfold is_octet in *.
    destruct (Z.eqb_spec o0 0), (Z.eqb_spec o0 255), (Z.leb_spec 128 o1),
      (Z.ltb_spec o0 128), (Z.ltb_spec o1 128); simpl in Hred; try done; lia.
  - done.
Qed.

(** A minimal encoding of two octets or more denotes a value outside the
    range of the encodings one octet shorter. *)
Lemma int_minimal_large o0 o1 rest :
  Forall is_octet (o0 :: o1 :: rest) -> int_minimal (o0 :: o1 :: rest) ->
  let v := be_signed (o0 :: o1 :: rest) in
  128 * 256 ^ Z.of_nat (length rest) <= v \/
  v < -128 * 256 ^ Z.of_nat (length rest).
Proof.
  intros Hoct Hmin.
  apply Forall_cons in Hoct as [H0 Hoct]. apply Forall_cons in Hoct as [H1 Hoct].
  set (X := (if o0 <? 128 then o0 else o0 - 256) * 256 + o1).
  assert (be_signed (o0 :: o1 :: rest)
          = X * 256 ^ Z.of_nat (length rest) + be_fold 256 0 rest) as ->.
  { cbn [be_signed]. unfold be_fold at 1. cbn [fold_left].
    apply be_fold_init. }
  pose proof (be_fold_bound 256 rest ltac:(lia) Hoct) as Hb.
  simpl in Hmin. unfold redundant_lead in Hmin.
  rewrite land_0x80_testbit, negb_involutive, octet_testbit_7 in Hmin by done.
  assert (128 <= X \/ X <= -129) as HX.
  { subst X. unfold is_octet in *.
    destruct (Z.eqb_spec o0 0), (Z.eqb_spec o0 255), (Z.leb_spec 128 o1),
      (Z.ltb_spec o0 128); simpl in Hmin; try done; lia. }
  set (P := 256 ^ Z.of_nat (length rest)) in *.
  set (U := be_fold 256 0 rest) in *. clearbody P U X.
  cbv zeta. destruct HX; [left | right].
  - assert (128 * P <= X * P) by (apply Z.mul_le_mono_nonneg_r; lia). lia.
  - assert (X * P <= -129 * P) by (apply Z.mul_le_mono_nonneg_r; lia). lia.
Qed.

Lemma int_minimal_shortest l l' :
  Forall is_octet l -> l <> [] -> int_minimal l ->
  Forall is_octet l' -> l' <> [] -> be_signed l' = be_signed l ->
  (length l <= length l')%nat.
Proof.
  intros Hoct Hne Hmin Hoct' Hne' Hv.
  destruct l' as [|p0 rest']; [done|].
  destruct l as [|o0 [|o1 rest]]; [done | simpl; lia |].
  pose proof (int_minimal_large _ _ _ Hoct Hmin) as Hlarge. cbv zeta in Hlarge.
  pose proof (be_signed_range _ _ Hoct') as Hrange.
  rewrite Hv in Hrange.
  destruct (decide (length rest' <= length rest)%nat) as [Hle|]; [|simpl; lia].
  exfalso.
  assert (256 ^ Z.of_nat (length rest') <= 256 ^ Z.of_nat (length rest))
    by (apply Z.pow_le_mono_r; lia).
  lia.
Qed.

Lemma int_octets_spec n :
  int_octets n <> [] /\ Forall is_octet (int_octets n) /\
  be_signed (int_octets n) = n /\ int_minimal (int_octets n).
Proof.
  unfold int_octets.
  destruct (int_loop_spec n []) as (f & pre & -> & Hf & Hne & Hoct & Hv & Hhd).
  rewrite app_nil_r, Hhd.
  assert ((f =? 0) && negb (Z.land (Z.land f 255) 128 =? 0) = false) as ->
    by (destruct Hf as [-> | ->]; done).
  destruct (int_strip_spec pre Hoct Hne) as (Hv' & Ho' & Hn' & Hm').
  rewrite Hv'. done.
Qed.

Lemma ints2octs_ok l : Forall is_octet l -> ints2octs l = Ok l.
Proof.
  intros Hl. unfold ints2octs.
  assert (forallb (fun x => bool_decide (0 <= x < 256)) l = true) as ->; [|done].
  apply forallb_forall. intros x Hx%list_elem_of_In.
  apply bool_decide_eq_true. by apply (proj1 (Forall_forall _ _) Hl).
Qed.

(** C1.  For every integer [n], IntegerEncoder.encodeValue returns, with
    the is-constructed flag 0, the shortest two's-complement big-endian
    octets of [n]: they denote [n], the top octet is not 0x00 when bit 7
    of the next octet is 0 and not 0xFF when it is 1, no list of octets
    that denotes [n] is shorter, and zero gives the single octet 0x00. *)
Theorem IntegerEncoder_encodeValue_shortest
    (fuel : nat) (encodeFun : EncodeFun) (ts bts : list Tag) (tid : option Z)
    (n : Z) (defMode : bool) (maxChunkSize : Z) :
  let value := mkItem ts bts tid (IntegerV n) in
  exists octs : octets,
    IntegerEncoder_encodeValue fuel encodeFun value defMode maxChunkSize
      = Ok (octs, false, value) /\
    octs <> [] /\ Forall is_octet octs /\ be_signed octs = n /\
    (forall o0 o1 rest, octs = o0 :: o1 :: rest ->
       ~ (o0 = 0x00 /\ Z.testbit o1 7 = false) /\
       ~ (o0 = 0xFF /\ Z.testbit o1 7 = true)) /\
    (forall l : octets, l <> [] -> Forall is_octet l -> be_signed l = n ->
       (length octs <= length l)%nat) /\
    (n = 0 -> octs = [0x00]).
Proof.
  intros value. exists (int_octets n).
  destruct (int_octets_spec n) as (Hne & Hoct & Hv & Hmin).
  split.
  { unfold IntegerEncoder_encodeValue. simpl. by rewrite ints2octs_ok. }
  split; [done|]. split; [done|]. split; [done|]. split; [|split].
  - intros o0 o1 rest Heq. rewrite Heq in Hmin. simpl in Hmin.
    unfold redundant_lead in Hmin. rewrite land_0x80_testbit in Hmin.
    split; intros [-> Hbit]; rewrite Hbit in Hmin; done.
  - intros l Hl Hol Hvl. apply int_minimal_shortest; try done. congruence.
  - intros ->. done.
Qed.

(** ** Base-128 digits: tag numbers and OID sub-identifiers *)

(** A property of the integers of a range, checked one by one. *)
Lemma forall_range (P : Z -> Prop) `{!forall x, Decision (P x)} (lo n : Z) :
  bool_decide (Forall P (seqZ lo n)) = true ->
  forall x, lo <= x < lo + n -> P x.
Proof.
  intros Hall%bool_decide_eq_true x Hx.
  apply (proj1 (Forall_forall _ _) Hall), elem_of_seqZ. lia.
Qed.

Lemma continuation_octet (x : Z) :
  let d := Z.lor 0x80 (Z.land x 0x7f) in
  is_octet d /\ Z.testbit d 7 = true /\ Z.land d 0x7f = x `mod` 128.
Proof.
  rewrite land_0x7f. pose proof (Z.mod_pos_bound x 128 ltac:(lia)) as Hm.
  revert Hm. generalize (x `mod` 128). intros y Hy. revert y Hy.
  apply (forall_range (fun y =>
    is_octet (Z.lor 128 y) /\ Z.testbit (Z.lor 128 y) 7 = true /\
    Z.land (Z.lor 128 y) 127 = y) 0 128).
  by vm_compute.
Qed.


Lemma base128_of_octets x l : base128_of x l -> Forall is_octet l.
Proof.
  intros (init & lst & -> & Hinit & Hlst & _). apply Forall_app. split.
  - eapply Forall_impl; [done|]. by intros o [? _].
  - by apply Forall_singleton.
Qed.

Lemma last_octet (x : Z) :
  let d := Z.land x 0x7f in
  is_octet d /\ Z.testbit d 7 = false /\ Z.land d 0x7f = x `mod` 128.
Proof.
  rewrite land_0x7f. pose proof (Z.mod_pos_bound x 128 ltac:(lia)) as Hm.
  revert Hm. generalize (x `mod` 128). intros y Hy. revert y Hy.
  apply (forall_range (fun y =>
    is_octet y /\ Z.testbit y 7 = false /\ Z.land y 127 = y) 0 128).
  by vm_compute.
Qed.

(** Continuation octets [pre] in front of the last octet of [x]. *)
Lemma base128_of_snoc x pre :
  0 <= x ->
  Forall (fun o => is_octet o /\ Z.testbit o 7 = true) pre ->
  be_unsigned 128 ((fun o => Z.land o 0x7f) <$> pre) = x `div` 128 ->
  base128_of x (pre ++ [Z.land x 0x7f]).
Proof.
  intros Hx Hpre Hval. destruct (last_octet x) as (Ho & Hb & Hl).
  exists pre, (Z.land x 0x7f). split; [done|]. split; [done|].
  split; [done|]. split; [done|].
  unfold be_unsigned in *. rewrite fmap_app. simpl.
  rewrite be_fold_snoc, Hval, Hl.
  pose proof (Z.div_mod x 128 ltac:(lia)). lia.
Qed.

Lemma int2oct_ok x : is_octet x -> int2oct x = Ok [x].
Proof. intros Hx. unfold int2oct. by rewrite bool_decide_eq_true_2. Qed.

Lemma tag_loop_spec fuel tagId s :
  0 <= tagId < 128 ^ Z.of_nat fuel ->
  exists pre,
    tag_loop fuel tagId s = Ok (pre ++ s) /\
    Forall (fun o => is_octet o /\ Z.testbit o 7 = true) pre /\
    be_unsigned 128 ((fun o => Z.land o 0x7f) <$> pre) = tagId.
Proof.
  revert tagId s. induction fuel as [|fuel IH]; intros tagId s Hrange.
  - assert (tagId = 0) as -> by (simpl in Hrange; lia). by exists [].
  - destruct (Z.eqb_spec tagId 0) as [-> | Hnz].
    { by exists []. }
    cbn [tag_loop]. destruct (Z.eqb_spec tagId 0); [done|].
    destruct (continuation_octet tagId) as (Ho & Hb & Hl).
    rewrite int2oct_ok by done. simpl.
    rewrite Nat2Z.inj_succ, Z.pow_succ_r in Hrange by lia.
    destruct (IH (Z.shiftr tagId 7) (Z.lor 128 (Z.land tagId 127) :: s))
      as (pre & Hrun & Hpre & Hval).
    { rewrite shiftr_7. split; [apply Z.div_pos; lia|].
      apply Z.div_lt_upper_bound; lia. }
    exists (pre ++ [Z.lor 128 (Z.land tagId 127)]).
    split; [by rewrite Hrun, <- app_assoc|]. split.
    + apply Forall_app. split; [done|]. by apply Forall_singleton.
    + unfold be_unsigned in *. rewrite fmap_app. cbn [fmap list_fmap].
      rewrite be_fold_snoc, Hval, Hl, shiftr_7.
      pose proof (Z.div_mod tagId 128 ltac:(lia)). lia.
Qed.

(** ** C2: the identifier octets *)

(** The first identifier octet, for a tag number below 31 and for the
    escape 0x1F: its class bits, form bit and number bits. *)
Lemma lead_octet tagClass tagFormat (isConstructed : bool) low :
  is_tagClass tagClass -> is_tagFormat tagFormat -> 0 <= low < 32 ->
  let v := Z.lor tagClass tagFormat in
  let v := if isConstructed then Z.lor v tagFormatConstructed else v in
  let lead := Z.lor v low in
  is_octet lead /\ Z.land lead 0xC0 = tagClass /\
  Z.testbit lead 5 = isConstructed || (tagFormat =? tagFormatConstructed) /\
  Z.land lead 0x1F = low.
Proof.
  intros Hc Hf Hlow. revert low Hlow.
  destruct Hc as [-> | [-> | [-> | ->]]], Hf as [-> | ->], isConstructed;
    cbv zeta;
    match goal with
    | |- forall low, _ -> @?P low => apply (forall_range P 0 32)
    end; by vm_compute.
Qed.

(** The identifier octets of a well-formed tag. *)
Lemma encodeTag_octets (fuel : nat) (tagClass tagFormat tagId : Z)
    (isConstructed : bool) :
  is_tagClass tagClass -> is_tagFormat tagFormat ->
  0 <= tagId < 128 ^ Z.of_nat fuel ->
  exists lead rest,
    encodeTag fuel (tagClass, tagFormat, tagId) isConstructed
      = Ok (lead :: rest) /\
    is_octet lead /\
    Z.land lead 0xC0 = tagClass /\
    (Z.testbit lead 5 = true <->
       isConstructed = true \/ tagFormat = tagFormatConstructed) /\
    (tagId < 31 -> Z.land lead 0x1F = tagId /\ rest = []) /\
    (31 <= tagId -> Z.land lead 0x1F = 0x1F /\ base128_of tagId rest).
Proof.
  intros Hc Hf Hid.
  assert (forall lead : Z,
    Z.testbit lead 5 = isConstructed || (tagFormat =? tagFormatConstructed) ->
    Z.testbit lead 5 = true <->
      isConstructed = true \/ tagFormat = tagFormatConstructed) as Hbit.
  { intros lead ->. rewrite orb_true_iff, Z.eqb_eq. done. }
  unfold encodeTag. destruct (Z.ltb_spec tagId 31) as [Hlt | Hge].
  - destruct (lead_octet tagClass tagFormat isConstructed tagId Hc Hf
                ltac:(lia)) as (Ho & Hcl & Hfo & Hnum).
    cbv zeta in Ho, Hcl, Hfo, Hnum.
    eexists _, []. rewrite int2oct_ok by done.
    split; [done|]. split; [done|]. split; [done|].
    split; [by apply Hbit|]. split; [done | lia].
  - destruct (lead_octet tagClass tagFormat isConstructed 0x1F Hc Hf
                ltac:(lia)) as (Ho & Hcl & Hfo & Hnum).
    cbv zeta in Ho, Hcl, Hfo, Hnum.
    destruct (last_octet tagId) as (Hlo & _ & _).
    rewrite (int2oct_ok (Z.land tagId 127)) by done. cbn [mbind result_bind].
    destruct (tag_loop_spec fuel (Z.shiftr tagId 7) [Z.land tagId 127])
      as (pre & -> & Hpre & Hval).
    { rewrite shiftr_7. split; [apply Z.div_pos; lia|].
      apply Z.le_lt_trans with tagId; [|lia].
      apply Z.div_le_upper_bound; lia. }
    cbn [mbind result_bind]. rewrite int2oct_ok by done.
    cbn [mbind result_bind]. eexists _, _. split; [done|].
    split; [done|]. split; [done|]. split; [by apply Hbit|].
    split; [lia|]. intros _. split; [done|].
    apply base128_of_snoc; [lia | done |]. by rewrite Hval, shiftr_7.
Qed.

(** C2, as the code has it.  For a tag (class, form, number) and a
    constructed flag, encodeTag emits a leading octet whose high two bits
    are the class, whose bit 6 is 1 exactly when the flag is set or the
    form recorded in the tag is CONSTRUCTED, and whose low five bits are
    the number when it is below 31 and 0x1F otherwise; from 31 on the
    number follows in base 128, big-endian, the high bit set on all
    octets but the last. *)
Theorem encodeTag_spec (fuel : nat) (tagClass tagFormat tagId : Z)
    (isConstructed : bool) :
  is_tagClass tagClass -> is_tagFormat tagFormat ->
  0 <= tagId < 128 ^ Z.of_nat fuel ->
  exists lead rest,
    encodeTag fuel (tagClass, tagFormat, tagId) isConstructed
      = Ok (lead :: rest) /\
    is_octet lead /\
    Z.land lead 0xC0 = tagClass /\
    (Z.testbit lead 5 = true <->
       isConstructed = true \/ tagFormat = tagFormatConstructed) /\
    (tagId < 31 -> Z.land lead 0x1F = tagId /\ rest = []) /\
    (31 <= tagId -> Z.land lead 0x1F = 0x1F /\ base128_of tagId rest).
Proof. apply encodeTag_octets. Qed.

Lemma encodeTag_spec_witness :
  exists lead rest,
    encodeTag 2 (tagClassApplication, tagFormatSimple, 1000) true
      = Ok (lead :: rest) /\
    is_octet lead /\
    Z.land lead 0xC0 = tagClassApplication /\
    (Z.testbit lead 5 = true <->
       true = true \/ tagFormatSimple = tagFormatConstructed) /\
    (1000 < 31 -> Z.land lead 0x1F = 1000 /\ rest = []) /\
    (31 <= 1000 -> Z.land lead 0x1F = 0x1F /\ base128_of 1000 rest).
Proof.
  apply (encodeTag_spec 2 tagClassApplication tagFormatSimple 1000 true).
  - right. left. reflexivity.
  - left. reflexivity.
  - simpl. lia.
Defined.

(** C2 as stated fails: a tag whose recorded form is CONSTRUCTED is
    emitted with bit 6 set although the constructed flag is clear. *)
Lemma encodeTag_form_bit_counterexample :
  exists lead,
    encodeTag 0 (tagClassUniversal, tagFormatConstructed, 16) false
      = Ok [lead] /\
    ~ (Z.testbit lead 5 = true <-> false = true).
Proof.
  exists 0x30. split; [reflexivity|]. intros [Hbit _].
  discriminate (Hbit eq_refl).
Qed.

(** ** C3: the length octets *)

Lemma be_loop_spec fuel x s :
  0 <= x < 256 ^ Z.of_nat fuel ->
  exists pre,
    be_loop fuel x s = Ok (pre ++ s) /\ Forall is_octet pre /\
    be_unsigned 256 pre = x /\ (x = 0 -> pre = []) /\
    (0 < x -> 0 < hd 0 pre).
Proof.
  revert x s. induction fuel as [|fuel IH]; intros x s Hrange.
  - assert (x = 0) as -> by (simpl in Hrange; lia). exists []. by repeat split; try lia.
  - destruct (Z.eqb_spec x 0) as [-> | Hnz].
    { exists []. by repeat split; try lia. }
    cbn [be_loop]. destruct (Z.eqb_spec x 0); [done|].
    rewrite land_0xff. pose proof (Z.mod_pos_bound x 256 ltac:(lia)) as Hm.
    rewrite int2oct_ok by done. cbn [mbind result_bind app].
    rewrite Nat2Z.inj_succ, Z.pow_succ_r in Hrange by lia.
    pose proof (Z.div_mod x 256 ltac:(lia)) as Hdm.
    destruct (IH (Z.shiftr x 8) (x `mod` 256 :: s))
      as (pre & Hrun & Hpre & Hval & Hz & Hnzd).
    { rewrite shiftr_8. split; [apply Z.div_pos; lia|].
      apply Z.div_lt_upper_bound; lia. }
    exists (pre ++ [x `mod` 256]).
    split; [by rewrite Hrun, <- app_assoc|]. split.
    { apply Forall_app. split; [done|]. by apply Forall_singleton. }
    split.
    { unfold be_unsigned in *. rewrite be_fold_snoc, Hval, shiftr_8. lia. }
    split; [lia|]. intros _. rewrite shiftr_8 in *.
    destruct (decide (x `div` 256 = 0)) as [Hq | Hq].
    + rewrite (Hz Hq). simpl. lia.
    + assert (0 <= x `div` 256) by (apply Z.div_pos; lia).
      destruct pre as [|p pre]; [simpl in Hval; unfold be_unsigned in Hval; simpl in Hval; lia|].
      simpl. simpl in Hnzd. lia.
Qed.

(** Digits with a nonzero leading one pin their number down. *)
Lemma be_unsigned_size b l :
  1 < b -> Forall (fun o => 0 <= o < b) l -> 0 < hd 0 l ->
  b ^ (Z.of_nat (length l) - 1) <= be_unsigned b l < b ^ Z.of_nat (length l).
Proof.
  intros Hb Hl Hhd. split; [|apply be_fold_bound; [lia | done]].
  destruct l as [|d rest]; [simpl in Hhd; lia|].
  apply Forall_cons in Hl as [Hd Hrest]. simpl in Hhd.
  unfold be_unsigned, be_fold. cbn [fold_left].
  change (fold_left _ rest ?i) with (be_fold b i rest).
  rewrite be_fold_init.
  pose proof (be_fold_bound b rest ltac:(lia) Hrest) as Hbound.
  replace (Z.of_nat (length (d :: rest)) - 1) with (Z.of_nat (length rest))
    by (simpl; lia).
  assert (0 < b ^ Z.of_nat (length rest)) by (apply Z.pow_pos_nonneg; lia).
  nia.
Qed.

(** The length octets of a non-negative length. *)
Lemma encodeLength_octets (self : AbstractItemEncoder) (fuel : nat)
    (length : Z) (defMode : bool) :
  0 <= length < 256 ^ Z.of_nat fuel ->
  (negb defMode && supportIndefLenMode self = true ->
     encodeLength self fuel length defMode = Ok [0x80]) /\
  (negb defMode && supportIndefLenMode self = false -> length < 128 ->
     encodeLength self fuel length defMode = Ok [length]) /\
  (negb defMode && supportIndefLenMode self = false -> 128 <= length ->
     exists digits : octets,
       let k := Z.of_nat (List.length digits) in
       Forall is_octet digits /\ be_unsigned 256 digits = length /\
       256 ^ (k - 1) <= length < 256 ^ k /\
       (k <= 126 ->
          encodeLength self fuel length defMode
            = Ok (Z.lor 0x80 k :: digits) /\
          Z.lor 0x80 k = 128 + k) /\
       (126 < k ->
          encodeLength self fuel length defMode
            = Raise (LengthOctetsOverflow k))).
Proof.
  intros Hrange. unfold encodeLength. split; [|split].
  - by intros ->.
  - intros -> Hlt. destruct (Z.ltb_spec length 128); [|lia].
    apply int2oct_ok. unfold is_octet. lia.
  - intros -> Hge. destruct (Z.ltb_spec length 128); [lia|].
    destruct (be_loop_spec fuel length null Hrange)
      as (digits & -> & Hoct & Hval & _ & Hhd).
    exists digits. cbv zeta. unfold null. rewrite app_nil_r.
    split; [done|]. split; [done|]. split.
    { rewrite <- Hval. apply be_unsigned_size; [lia | done | apply Hhd; lia]. }
    cbn [mbind result_bind].
    split; intros Hk.
    + destruct (Z.ltb_spec 126 (Z.of_nat (List.length digits))); [lia|].
      assert (1 <= Z.of_nat (List.length digits)) as Hk1.
      { destruct digits; [|simpl; lia].
        unfold be_unsigned in Hval. simpl in Hval. lia. }
      assert (is_octet (Z.lor 128 (Z.of_nat (List.length digits))) /\
              Z.lor 128 (Z.of_nat (List.length digits))
              = 128 + Z.of_nat (List.length digits)) as [Ho Hsum].
      { revert Hk Hk1. generalize (Z.of_nat (List.length digits)).
        intros k Hk Hk1. revert k Hk1 Hk.
        assert (forall k, 1 <= k < 1 + 126 ->
                  is_octet (Z.lor 128 k) /\ Z.lor 128 k = 128 + k) as Hall
          by (apply (forall_range _ 1 126); by vm_compute).
        intros k ? ?. apply Hall. lia. }
      rewrite int2oct_ok by done. done.
    + by destruct (Z.ltb_spec 126 (Z.of_nat (List.length digits))); [|lia].
Qed.

(** C3.  For a non-negative length, encodeLength answers the single octet
    0x80 when indefinite mode is requested and the codec supports it;
    otherwise the single octet [length] below 128; otherwise 0x80|k and the
    [k] big-endian octets of the length when k <= 126, and raises when
    k > 126. *)
Theorem encodeLength_spec (self : AbstractItemEncoder) (fuel : nat)
    (length : Z) (defMode : bool) :
  0 <= length < 256 ^ Z.of_nat fuel ->
  (negb defMode && supportIndefLenMode self = true ->
     encodeLength self fuel length defMode = Ok [0x80]) /\
  (negb defMode && supportIndefLenMode self = false -> length < 128 ->
     encodeLength self fuel length defMode = Ok [length]) /\
  (negb defMode && supportIndefLenMode self = false -> 128 <= length ->
     exists digits : octets,
       let k := Z.of_nat (List.length digits) in
       Forall is_octet digits /\ be_unsigned 256 digits = length /\
       256 ^ (k - 1) <= length < 256 ^ k /\
       (k <= 126 ->
          encodeLength self fuel length defMode
            = Ok (Z.lor 0x80 k :: digits) /\
          Z.lor 0x80 k = 128 + k) /\
       (126 < k ->
          encodeLength self fuel length defMode
            = Raise (LengthOctetsOverflow k))).
Proof. apply encodeLength_octets. Qed.

Lemma encodeLength_spec_witness :
  (negb true && supportIndefLenMode IntegerEncoder = true ->
     encodeLength IntegerEncoder 2 300 true = Ok [0x80]) /\
  (negb true && supportIndefLenMode IntegerEncoder = false -> 300 < 128 ->
     encodeLength IntegerEncoder 2 300 true = Ok [300]) /\
  (negb true && supportIndefLenMode IntegerEncoder = false -> 128 <= 300 ->
     exists digits : octets,
       let k := Z.of_nat (List.length digits) in
       Forall is_octet digits /\ be_unsigned 256 digits = 300 /\
       256 ^ (k - 1) <= 300 < 256 ^ k /\
       (k <= 126 ->
          encodeLength IntegerEncoder 2 300 true
            = Ok (Z.lor 0x80 k :: digits) /\
          Z.lor 0x80 k = 128 + k) /\
       (126 < k ->
          encodeLength IntegerEncoder 2 300 true
            = Raise (LengthOctetsOverflow k))).
Proof.
  apply (encodeLength_spec IntegerEncoder 2 300 true). simpl. lia.
Defined.

(** The overflow is reached: a length of 127 octets. *)
Example encodeLength_overflow :
  encodeLength IntegerEncoder 127 (256 ^ 126) true
  = Raise (LengthOctetsOverflow 127).
Proof. by vm_compute. Qed.

(** ** C9: the OBJECT IDENTIFIER encoder *)

Lemma oid_pack_loop_spec subid res :
  0 <= subid ->
  exists pre,
    oid_pack_loop subid res = pre ++ res /\
    Forall (fun o => is_octet o /\ Z.testbit o 7 = true) pre /\
    be_unsigned 128 ((fun o => Z.land o 0x7f) <$> pre) = subid.
Proof.
  funelim (oid_pack_loop subid res); intros Hpos.
  - destruct (continuation_octet subid) as (Ho & Hb & Hl).
    destruct H as (pre & Hrun & Hpre & Hval).
    { rewrite shiftr_7. apply Z.div_pos; lia. }
    exists (pre ++ [Z.lor 128 (Z.land subid 127)]).
    split; [by rewrite Hrun, <- app_assoc|]. split.
    + apply Forall_app. split; [done|]. by apply Forall_singleton.
    + unfold be_unsigned in *. rewrite fmap_app. cbn [fmap list_fmap].
      rewrite be_fold_snoc, Hval, Hl, shiftr_7.
      pose proof (Z.div_mod subid 128 ltac:(lia)). lia.
  - assert (subid = 0) as -> by lia. by exists [].
Qed.


Lemma oid_subids_ok subids octs :
  Forall (fun s => ~ subid_out_of_range s) subids ->
  exists chunks,
    oid_subids subids octs = Ok (octs ++ concat chunks) /\
    Forall2 base128_of subids chunks.
Proof.
  revert octs. induction subids as [|subid rest IH]; intros octs Hall.
  - exists []. simpl. by rewrite app_nil_r.
  - apply Forall_cons in Hall as [Hs Hrest]. unfold subid_out_of_range in Hs.
    cbn [oid_subids].
    destruct (Z.ltb_spec (-1) subid), (Z.ltb_spec subid 128); cbn [andb];
      try (destruct (Z.ltb_spec subid 0), (Z.ltb_spec 0xFFFFFFFF subid);
           cbn [orb]; try lia).
    + destruct (IH (octs ++ [Z.land subid 127]) Hrest) as (chunks & -> & Hch).
      exists ([Z.land subid 127] :: chunks).
      split; [by rewrite <- app_assoc|]. constructor; [|done].
      apply (base128_of_snoc subid []); [lia | done |].
      symmetry. apply Z.div_small. lia.
    + destruct (oid_pack_loop_spec (Z.shiftr subid 7) [Z.land subid 127])
        as (pre & -> & Hpre & Hval).
      { rewrite shiftr_7. apply Z.div_pos; lia. }
      destruct (IH (octs ++ pre ++ [Z.land subid 127]) Hrest)
        as (chunks & -> & Hch).
      exists ((pre ++ [Z.land subid 127]) :: chunks).
      split; [by rewrite <- app_assoc|]. constructor; [|done].
      apply base128_of_snoc; [lia | done |]. by rewrite Hval, shiftr_7.
Qed.

Lemma oid_subids_raises subids octs :
  Exists subid_out_of_range subids -> raises (oid_subids subids octs).
Proof.
  revert octs. induction subids as [|subid rest IH]; intros octs Hex.
  - by apply Exists_nil in Hex.
  - cbn [oid_subids].
    destruct (Z.ltb_spec (-1) subid), (Z.ltb_spec subid 128); cbn [andb];
      try (destruct (Z.ltb_spec subid 0), (Z.ltb_spec 0xFFFFFFFF subid);
           cbn [orb]; try lia); try (by eexists);
      apply IH; apply Exists_cons in Hex as [Hbad | Hex]; try done;
      unfold subid_out_of_range in Hbad; lia.
Qed.

(** The precomputed prefixes only shortcut the general path. *)
Lemma oid_octets_plain_eq oid : oid_octets oid = oid_octets_plain oid.
Proof.
  unfold oid_octets.
  destruct (precomputedValues !! take 5 oid) as [octs|] eqn:Hpre; [|done].
  unfold precomputedValues in Hpre.
  apply lookup_insert_Some in Hpre as [[Htake <-] | [_ Hpre]];
    [|apply lookup_insert_Some in Hpre as [[Htake <-] | [_ Hpre]];
      [|by rewrite lookup_empty in Hpre]];
    rewrite <- (take_drop 5 oid) at 2; rewrite <- Htake; reflexivity.
Qed.


(** C9.  ObjectIdentifierEncoder.encodeValue raises exactly when the OID
    has fewer than two sub-identifiers, or 40*first + second is outside
    0..255, or a later sub-identifier is negative or above 2^32 - 1;
    otherwise it returns 40*first + second as first octet and then each
    later sub-identifier in base 128, big-endian, the high bit set on all
    octets but its last. *)
Theorem ObjectIdentifierEncoder_encodeValue_spec
    (fuel : nat) (encodeFun : EncodeFun) (ts bts : list Tag) (tid : option Z)
    (oid : list Z) (defMode : bool) (maxChunkSize : Z) :
  let value := mkItem ts bts tid (ObjectIdentifierV oid) in
  let r := ObjectIdentifierEncoder_encodeValue fuel encodeFun value defMode
             maxChunkSize in
  (raises r <-> oid_refused oid) /\
  (~ oid_refused oid ->
   exists first second rest chunks,
     oid = first :: second :: rest /\
     Forall2 base128_of rest chunks /\
     r = Ok (40 * first + second :: concat chunks, false, value)).
Proof.
  intros value r. subst r value.
  unfold ObjectIdentifierEncoder_encodeValue. cbn [asTuple body mbind result_bind].
  rewrite oid_octets_plain_eq.
  destruct oid as [|first [|second rest]].
  { split; [|intros []; left; simpl; lia].
    split; [left; simpl; lia | by eexists]. }
  { split; [|intros []; left; simpl; lia].
    split; [left; simpl; lia | by eexists]. }
  cbn [oid_octets_plain].
  destruct (Z.ltb_spec (first * 40 + second) 0);
    [|destruct (Z.ltb_spec 0xff (first * 40 + second))]; cbn [orb].
  1, 2: split; [|intros []; right; eexists _, _, _; split; [done|]; left; lia];
        split; [|by eexists];
        intros _; right; eexists _, _, _; split; [done|]; left; lia.
  destruct (decide (Exists subid_out_of_range rest)) as [Hbad | Hgood].
  - destruct (oid_subids_raises rest [first * 40 + second] Hbad) as [e ->].
    split; [|intros []; right; eexists _, _, _; split; [done|]; by right].
    split; [|by eexists].
    intros _. right. eexists _, _, _. split; [done|]. by right.
  - apply not_Exists_Forall in Hgood; [|intros s; unfold subid_out_of_range; apply _].
    destruct (oid_subids_ok rest [first * 40 + second] Hgood)
      as (chunks & -> & Hch).
    assert (Forall is_octet ([first * 40 + second] ++ concat chunks)) as Hoct.
    { apply Forall_app. split; [apply Forall_singleton; unfold is_octet; lia|].
      apply Forall_concat. clear -Hch.
      induction Hch; constructor; [by eapply base128_of_octets | done]. }
    cbn [mbind result_bind]. rewrite ints2octs_ok by done.
    cbn [mbind result_bind app].
    assert (~ oid_refused (first :: second :: rest)) as Hacc.
    { intros [Hshort | (f & s & r & [= <- <- <-] & [Hinit | Hex])].
      - simpl in Hshort. lia.
      - lia.
      - apply Exists_exists in Hex as (x & Hx & Hxbad).
        by apply (proj1 (Forall_forall _ _) Hgood x Hx). }
    split.
    + split; [by intros [e ?] | done].
    + intros _. exists first, second, rest, chunks.
      split; [done|]. split; [done|]. by rewrite (Z.mul_comm 40).
Qed.

(** ** C7, C8: the REAL encoder *)

(** [while e:] on a negative [e]: shifting keeps it negative, so the loop
    is never left. *)
Lemma be_loop_negative fuel x s : x < 0 -> be_loop fuel x s = OutOfFuel.
Proof.
  revert x s. induction fuel as [|fuel IH]; intros x s Hneg.
  - simpl. by destruct (Z.eqb_spec x 0); [lia|].
  - cbn [be_loop]. destruct (Z.eqb_spec x 0); [lia|].
    rewrite land_0xff, int2oct_ok by (apply Z.mod_pos_bound; lia).
    cbn [mbind result_bind]. apply IH. by apply Z.shiftr_neg.
Qed.

Lemma land_1_odd m : Z.odd m = true -> (Z.land m 1 =? 0) = false.
Proof.
  intros Hodd. change 1 with (Z.ones 1) at 1. rewrite Z.land_ones by lia.
  change (2 ^ 1) with 2. rewrite Zmod_odd, Hodd. done.
Qed.

(** A base-2 value whose exponent is negative once the mantissa is
    normalized: the exponent loop has no exit. *)
Lemma real_octets_negative_exponent fuel m e :
  Z.odd m = true -> e < 0 -> real_octets fuel (Finite m 2 e) = OutOfFuel.
Proof.
  intros Hodd He. unfold real_octets.
  destruct (Z.eqb_spec m 0) as [-> | _]; [done|]. cbn [Z.eqb Pos.eqb].
  assert (forall m' fo, Z.odd m' = true ->
    ('(m0, e0) ← real_normalize fuel m' e;
     eo ← be_loop fuel e0 null;
     (let n := Z.of_nat (length eo) in
      if 255 <? n then Raise RealExponentOverflow
      else '(fo0, eo0) ← real_exp_header fo eo;
           po ← be_loop fuel m0 null; h ← int2oct fo0; Ok (h ++ eo0 ++ po)))
    = OutOfFuel) as Hloop.
  { intros m' fo Hm'.
    assert (real_normalize fuel m' e = Ok (m', e)) as ->
      by (destruct fuel; simpl; by rewrite land_1_odd).
    cbn [mbind result_bind]. by rewrite (be_loop_negative fuel e null He). }
  destruct (m <? 0); apply Hloop; [by rewrite Z.odd_opp | done].
Qed.

(** The octet after an EE=11 first octet is n // 255 + 1, not the number
    [n] of exponent octets, for every [n] above 3 the encoder accepts. *)
Lemma real_exp_header_long fo eo :
  let n := Z.of_nat (length eo) in
  3 < n <= 255 ->
  real_exp_header fo eo = Ok (Z.lor fo 3, (n `div` 255 + 1) :: eo) /\
  n `div` 255 + 1 <> n.
Proof.
  intros n Hn. unfold real_exp_header. fold n.
  destruct (Z.eqb_spec n 1), (Z.eqb_spec n 2), (Z.eqb_spec n 3); try lia.
  pose proof (Z.div_mod n 255 ltac:(lia)).
  pose proof (Z.mod_pos_bound n 255 ltac:(lia)).
  rewrite int2oct_ok by (unfold is_octet; lia). split; [done | lia].
Qed.

(** C7, at the input where the code departs from it.  The base-2 value
    (1, 2, -1), which is 0.5, has a nonzero mantissa and a negative
    exponent: whatever the fuel, neither RealEncoder.encodeValue nor the
    top-level encoder returns, because [while e:] shifts -1 to -1
    for ever. *)
Theorem RealEncoder_negative_exponent_never_returns `{ValueHooks}
    (fuel : nat) (encodeFun : EncodeFun) (defMode : bool) (maxChunkSize : Z) :
  RealEncoder_encodeValue fuel encodeFun (Real 1 2 (-1)) defMode maxChunkSize
    = OutOfFuel /\
  encode fuel (Real 1 2 (-1)) defMode maxChunkSize = OutOfFuel.
Proof.
  assert (forall fuel' ef,
    RealEncoder_encodeValue fuel' ef (Real 1 2 (-1)) defMode maxChunkSize
    = OutOfFuel) as Hval.
  { intros fuel' ef. unfold RealEncoder_encodeValue.
    cbn [py_real Real body mbind result_bind].
    by rewrite real_octets_negative_exponent. }
  split; [apply Hval|].
  destruct fuel as [|fuel]; [done|].
  unfold encode. cbn [Encoder_call].
  assert (select_encoder
            {| Encoder_tagMap := tagMap; Encoder_typeMap := typeMap |}
            (Real 1 2 (-1)) = Ok RealEncoder) as -> by (by vm_compute).
  cbn [mbind result_bind]. unfold AbstractItemEncoder_encode.
  change (encodeValue RealEncoder) with RealEncoder_encodeValue.
  by rewrite Hval.
Qed.

(** C8, at the inputs where the code departs from it.  The exponent 2^24
    takes four octets, yet the octet after the EE=11 first octet 0x83 is
    0x01; and for the exponent 0 the encoder also answers EE=11 and the
    octet 0x01, with no exponent octet before the mantissa. *)
Theorem RealEncoder_exponent_length_octet
    (encodeFun : EncodeFun) (defMode : bool) (maxChunkSize : Z) :
  RealEncoder_encodeValue 4 encodeFun (Real 1 2 (2 ^ 24)) defMode maxChunkSize
    = Ok ([0x83; 0x01; 0x01; 0x00; 0x00; 0x00; 0x01], false,
          Real 1 2 (2 ^ 24)) /\
  RealEncoder_encodeValue 1 encodeFun (Real 1 2 0) defMode maxChunkSize
    = Ok ([0x83; 0x01; 0x01], false, Real 1 2 0).
Proof. split; reflexivity. Qed.

(** ** What the REAL encoder does get right *)

(** Mantissa normalization: the trailing zero bits go to the exponent. *)
Lemma real_normalize_spec fuel m e :
  0 < m < 2 ^ Z.of_nat fuel ->
  exists k,
    0 <= k /\ real_normalize fuel m e = Ok (m `div` 2 ^ k, e + k) /\
    Z.odd (m `div` 2 ^ k) = true /\ m = m `div` 2 ^ k * 2 ^ k.
Proof.
  revert m e. induction fuel as [|fuel IH]; intros m e Hm.
  - simpl in Hm. lia.
  - destruct (Z.odd m) eqn:Hodd.
    + exists 0. rewrite Z.pow_0_r, Z.div_1_r, Z.add_0_r.
      split; [done|]. split; [|split; [done | lia]].
      cbn [real_normalize]. by rewrite land_1_odd.
    + assert ((Z.land m 1 =? 0) = true) as Hland.
      { change 1 with (Z.ones 1) at 1. rewrite Z.land_ones by lia.
        change (2 ^ 1) with 2. by rewrite Zmod_odd, Hodd. }
      cbn [real_normalize]. rewrite Hland. cbn [negb].
      rewrite Z.shiftr_div_pow2 by lia. change (2 ^ 1) with 2.
      pose proof (Zmod_odd m) as Hmod. rewrite Hodd in Hmod.
      pose proof (Z.div_mod m 2 ltac:(lia)) as Hdm.
      rewrite Nat2Z.inj_succ, Z.pow_succ_r in Hm by lia.
      destruct (IH (m `div` 2) (e + 1) ltac:(lia)) as (k & Hk & -> & Hok & Heq).
      exists (k + 1).
      assert (m `div` 2 ^ (k + 1) = (m `div` 2) `div` 2 ^ k) as ->.
      { rewrite Z.pow_add_r, Z.pow_1_r, Z.mul_comm by lia.
        rewrite Z.div_div by (try apply Z.pow_pos_nonneg; lia).
        done. }
      split; [lia|]. split; [do 2 f_equal; lia|]. split; [done|].
      rewrite Z.pow_add_r, Z.pow_1_r by lia. lia.
Qed.

(** X18.  With a non-negative exponent the base-2 branch comes to an end: it
    answers octets or raises. *)
Lemma real_octets_returns fuel m e :
  m <> 0 -> Z.abs m < 2 ^ Z.of_nat fuel ->
  0 <= e -> e + Z.of_nat fuel < 256 ^ Z.of_nat fuel ->
  real_octets fuel (Finite m 2 e) <> OutOfFuel.
Proof.
  intros Hm Habs He Hfuel. unfold real_octets.
  destruct (Z.eqb_spec m 0); [done|]. cbn [Z.eqb Pos.eqb].
  assert (forall fo m', 0 < m' < 2 ^ Z.of_nat fuel ->
    ('(m0, e0) ← real_normalize fuel m' e;
     eo ← be_loop fuel e0 null;
     (let n := Z.of_nat (length eo) in
      if 255 <? n then Raise RealExponentOverflow
      else '(fo0, eo0) ← real_exp_header fo eo;
           po ← be_loop fuel m0 null; h ← int2oct fo0; Ok (h ++ eo0 ++ po)))
    <> OutOfFuel) as Hrun.
  { intros fo m' Hm'.
    destruct (real_normalize_spec fuel m' e Hm') as (k & Hk & -> & Hodd & Heq).
    cbn [mbind result_bind].
    assert (0 < m' `div` 2 ^ k <= m') as Hq.
    { assert (0 < 2 ^ k) by (apply Z.pow_pos_nonneg; lia).
      assert (0 <= m' `div` 2 ^ k) by (apply Z.div_pos; lia).
      destruct (decide (m' `div` 2 ^ k = 0)) as [Hz|]; [rewrite Hz in Hodd; done|].
      nia. }
    assert (k < Z.of_nat fuel) as Hkf.
    { destruct (Z.lt_ge_cases k (Z.of_nat fuel)) as [|Hge]; [done|]. exfalso.
      assert (2 ^ Z.of_nat fuel <= 2 ^ k) by (apply Z.pow_le_mono_r; lia).
      assert (0 < 2 ^ k) by (apply Z.pow_pos_nonneg; lia). nia. }
    destruct (be_loop_spec fuel (e + k) null ltac:(lia))
      as (eo & -> & _ & _ & _ & _).
    cbn [mbind result_bind]. unfold null. rewrite app_nil_r.
    destruct (255 <? Z.of_nat (length eo)); [done|].
    assert (real_exp_header fo eo <> OutOfFuel) as Hhdr.
    { unfold real_exp_header, int2oct.
      repeat (match goal with |- context [if ?b then _ else _] =>
                destruct b end; try done). }
    destruct (real_exp_header fo eo) as [[fo' eo']| |]; [|done..].
    cbn [mbind result_bind].
    assert (256 ^ Z.of_nat fuel >= 2 ^ Z.of_nat fuel).
    { change 256 with (2 ^ 8). rewrite <- Z.pow_mul_r by lia.
      apply Z.le_ge, Z.pow_le_mono_r; lia. }
    destruct (be_loop_spec fuel (m' `div` 2 ^ k) [] ltac:(lia))
      as (po & -> & _).
    cbn [mbind result_bind]. unfold int2oct. by destruct (bool_decide _). }
  destruct (Z.ltb_spec m 0); apply Hrun; lia.
Qed.

(** ** C5: the dispatcher's choice of codec *)

(** C5.  The concrete codec is chosen in this order: the explicit-tag
    wrapper when the tag set has more than one tag; else the type-id map
    entry when the value's type id is in that map; else the tag-set map
    entry of the full tag set; else that of the base tag set; else the
    call fails with the no-encoder error. *)
Theorem Encoder_call_dispatch_order (self : Encoder) (value : Asn1Item) :
  let tagSet := getTagSet value in
  let byTypeId := typeId value ≫= fun tid => Encoder_typeMap self !! tid in
  let byTagSet := Encoder_tagMap self !! tagSet in
  let byBaseTagSet := Encoder_tagMap self !! baseTagSet value in
  ((1 < length tagSet)%nat ->
     select_encoder self value = Ok explicitlyTaggedItemEncoder) /\
  ((length tagSet <= 1)%nat -> forall e, byTypeId = Some e ->
     select_encoder self value = Ok e) /\
  ((length tagSet <= 1)%nat -> byTypeId = None ->
     forall e, byTagSet = Some e -> select_encoder self value = Ok e) /\
  ((length tagSet <= 1)%nat -> byTypeId = None -> byTagSet = None ->
     forall e, byBaseTagSet = Some e -> select_encoder self value = Ok e) /\
  ((length tagSet <= 1)%nat -> byTypeId = None -> byTagSet = None ->
     byBaseTagSet = None ->
     select_encoder self value = Raise NoEncoder /\
     forall fuel defMode maxChunkSize,
       Encoder_call self (S fuel) value defMode maxChunkSize
       = Raise NoEncoder) /\
  (forall fuel defMode maxChunkSize,
     Encoder_call self (S fuel) value defMode maxChunkSize
     = select_encoder self value ≫= fun concreteEncoder =>
         AbstractItemEncoder_encode concreteEncoder fuel
           (Encoder_call self fuel) value defMode maxChunkSize).
Proof.
  intros tagSet byTypeId byTagSet byBaseTagSet.
  assert (forall e, byTypeId = Some e ->
            exists tid, typeId value = Some tid /\
                        Encoder_typeMap self !! tid = Some e) as Hsome.
  { subst byTypeId. intros e. destruct (typeId value) as [tid|]; [|done].
    simpl. eauto. }
  assert (byTypeId = None ->
          match typeId value with
          | Some tid => Encoder_typeMap self !! tid = None
          | None => True
          end) as Hnone.
  { subst byTypeId. by destruct (typeId value). }
  unfold select_encoder, select_by_tagSet. fold tagSet byTagSet byBaseTagSet.
  split; [|split; [|split; [|split; [|split]]]].
  - intros Hlen. by destruct (Nat.ltb_spec 1 (length tagSet)); [|lia].
  - intros Hlen e (tid & -> & ->)%Hsome.
    by destruct (Nat.ltb_spec 1 (length tagSet)); [lia|].
  - intros Hlen Hty%Hnone e ->.
    destruct (Nat.ltb_spec 1 (length tagSet)); [lia|].
    destruct (typeId value); [by rewrite Hty | done].
  - intros Hlen Hty%Hnone -> e ->.
    destruct (Nat.ltb_spec 1 (length tagSet)); [lia|].
    destruct (typeId value); [by rewrite Hty | done].
  - intros Hlen Hty%Hnone Hts Hbts.
    assert (select_encoder self value = Raise NoEncoder) as Hsel.
    { unfold select_encoder, select_by_tagSet.
      fold tagSet byTagSet byBaseTagSet. rewrite Hts, Hbts.
      destruct (Nat.ltb_spec 1 (length tagSet)); [lia|].
      destruct (typeId value); [by rewrite Hty | done]. }
    split; [done|]. intros fuel defMode maxChunkSize.
    cbn [Encoder_call]. by rewrite Hsel.
  - done.
Qed.

(** ** C4: the frame around the content *)

(** The end-of-contents marker: two zero octets. *)
Lemma Encoder_call_endOfOctets (E : Encoder) (n : nat) (defMode : bool)
    (maxChunkSize : Z) :
  Encoder_tagMap E !! getTagSet endOfOctets = Some EndOfOctetsEncoder ->
  Encoder_call E (S n) endOfOctets defMode maxChunkSize
  = Ok ([0x00; 0x00], endOfOctets).
Proof.
  intros Hmap. cbn [Encoder_call].
  assert (select_encoder E endOfOctets = Ok EndOfOctetsEncoder) as ->.
  { unfold select_encoder, select_by_tagSet. by rewrite Hmap. }
  cbn [mbind result_bind]. unfold AbstractItemEncoder_encode.
  cbn [encodeValue EndOfOctetsEncoder EndOfOctetsEncoder_encodeValue
       mbind result_bind].
  by destruct n.
Qed.

(** A definite length never starts with the octet 0x80. *)
Lemma encodeLength_definite (self : AbstractItemEncoder) (fuel : nat)
    (length : Z) :
  0 <= length < 256 ^ Z.of_nat (Nat.min fuel 126) ->
  exists ll,
    encodeLength self fuel length true = Ok ll /\ ll <> [] /\ hd 0 ll <> 0x80.
Proof.
  intros Hrange.
  assert (256 ^ Z.of_nat (fuel `min` 126) <= 256 ^ Z.of_nat fuel)
    by (apply Z.pow_le_mono_r; lia).
  assert (256 ^ Z.of_nat (fuel `min` 126) <= 256 ^ 126)
    by (apply Z.pow_le_mono_r; lia).
  destruct (encodeLength_octets self fuel length true ltac:(lia))
    as (_ & Hshort & Hlong).
  destruct (Z.ltb_spec length 128) as [Hlt | Hge].
  - exists [length]. rewrite Hshort by done. simpl. split; [done|].
    split; [done | lia].
  - destruct (Hlong eq_refl Hge) as (digits & _ & _ & Hk & Hok & _).
    cbv zeta in Hk, Hok.
    set (k := Z.of_nat (List.length digits)) in *.
    assert (k <= 126) as Hk126.
    { destruct (Z.le_gt_cases k 126) as [|Hgt]; [done|]. exfalso.
      assert (256 ^ 126 <= 256 ^ (k - 1)) by (apply Z.pow_le_mono_r; lia).
      lia. }
    assert (1 <= k).
    { destruct (Z.le_gt_cases 1 k) as [|Hlt]; [done|]. exfalso.
      assert (k = 0) as Hk0 by lia. rewrite Hk0 in Hk. simpl in Hk. lia. }
    destruct (Hok Hk126) as [-> Hsum]. eexists. split; [done|].
    simpl. split; [done | lia].
Qed.

(** C4.  Around the content of a tagged value: when the codec reports
    primitive form the frame has a definite length and no end-of-contents
    marker, whatever mode was asked for; and the octet 0x80 is emitted as
    length only in a frame whose identifier octet has the constructed bit
    and that ends with one marker 00 00 after its content. *)
Theorem AbstractItemEncoder_encode_frame
    (E : Encoder) (self : AbstractItemEncoder) (fuel n : nat)
    (value value' : Asn1Item) (defMode : bool) (maxChunkSize : Z)
    (substrate : octets) (isConstructed : bool)
    (tagClass tagFormat tagId : Z) :
  let encodeFun := Encoder_call E (S n) in
  let len := Z.of_nat (length substrate) in
  let indefinite :=
    isConstructed && negb defMode && supportIndefLenMode self in
  Encoder_tagMap E !! getTagSet endOfOctets = Some EndOfOctetsEncoder ->
  encodeValue self fuel encodeFun value defMode maxChunkSize
    = Ok (substrate, isConstructed, value') ->
  last (getTagSet value') = Some (tagClass, tagFormat, tagId) ->
  is_tagClass tagClass -> is_tagFormat tagFormat ->
  0 <= tagId < 128 ^ Z.of_nat fuel ->
  len < 256 ^ Z.of_nat (Nat.min fuel 126) ->
  exists tl : octets,
    encodeTag fuel (tagClass, tagFormat, tagId) isConstructed = Ok tl /\
    (isConstructed = false -> indefinite = false) /\
    (indefinite = false ->
       exists ll,
         encodeLength self fuel len true = Ok ll /\ hd 0 ll <> 0x80 /\
         AbstractItemEncoder_encode self fuel encodeFun value defMode
           maxChunkSize
         = Ok (tl ++ ll ++ substrate, value')) /\
    (indefinite = true ->
       isConstructed = true /\ Z.testbit (hd 0 tl) 5 = true /\
       AbstractItemEncoder_encode self fuel encodeFun value defMode
         maxChunkSize
       = Ok (tl ++ [0x80] ++ substrate ++ [0x00; 0x00], value')).
Proof.
  intros encodeFun len indefinite Heoo Hval Htag Hc Hf Hid Hlen.
  destruct (encodeTag_octets fuel tagClass tagFormat tagId isConstructed
              Hc Hf Hid) as (lead & rest & Htl & _ & _ & Hbit & _).
  exists (lead :: rest). split; [done|].
  split; [by intros ->|].
  unfold AbstractItemEncoder_encode. rewrite Hval.
  cbn [mbind result_bind]. rewrite Htag, Htl. cbn [mbind result_bind].
  fold len. split.
  - intros Hind.
    destruct (encodeLength_definite self fuel len ltac:(lia))
      as (ll & Hll & _ & Hhd).
    exists ll. split; [done|]. split; [done|].
    assert (encodeLength self fuel len
              (if negb isConstructed then true else defMode)
            = Ok ll /\
            _encodeEndOfOctets self encodeFun
              (if negb isConstructed then true else defMode) = Ok null)
      as [-> ->].
    { subst indefinite. unfold _encodeEndOfOctets.
      destruct isConstructed, defMode; simpl in *; try done.
      unfold encodeLength in *. simpl. by rewrite Hind in *. }
    cbn [mbind result_bind]. unfold null. by rewrite app_nil_r.
  - intros Hind. subst indefinite.
    destruct isConstructed; [|done]. destruct defMode; [done|].
    simpl in Hind. split; [done|]. split; [apply Hbit; by left|].
    unfold encodeLength, _encodeEndOfOctets. simpl. rewrite Hind. simpl.
    subst encodeFun. rewrite Encoder_call_endOfOctets by done. done.
Qed.

Lemma AbstractItemEncoder_encode_frame_witness :
  AbstractItemEncoder_encode OctetStringEncoder 3 (@encode univHooks 3)
    (OctetString [81; 117; 105; 99; 107]) false 4
  = Ok ([36; 128; 4; 4; 81; 117; 105; 99; 4; 1; 107; 0; 0],
        OctetString [81; 117; 105; 99; 107]).
Proof.
  destruct (AbstractItemEncoder_encode_frame
              {| Encoder_tagMap := @tagMap univHooks;
                 Encoder_typeMap := @typeMap univHooks |}
              OctetStringEncoder 3 2
              (OctetString [81; 117; 105; 99; 107])
              (OctetString [81; 117; 105; 99; 107]) false 4
              [4; 4; 81; 117; 105; 99; 4; 1; 107] true
              tagClassUniversal tagFormatSimple 4)
    as (tl & Htl & _ & _ & Hind).
  - vm_compute. reflexivity.
  - vm_compute. reflexivity.
  - reflexivity.
  - left. reflexivity.
  - left. reflexivity.
  - simpl. lia.
  - simpl. lia.
  - destruct (Hind eq_refl) as (_ & _ & Heq).
    injection Htl as <-. exact Heq.
Defined.

(** ** C6: the SEQUENCE / SET encoder *)

Section SequenceEncoder.
Context `{ValueHooks}.
Variables (encodeFun : EncodeFun) (defMode : bool) (maxChunkSize : Z).


Lemma seq_loop_spec lo hi outs value substrate :
  body value = SequenceV (lo ++ hi) ->
  Forall2 (fun c oc => encodeFun c defMode maxChunkSize = Ok oc)
          (seq_selected lo) outs ->
  exists value',
    seq_loop encodeFun defMode maxChunkSize (length lo) value substrate
    = Ok (concat outs.*1 ++ substrate, value').
Proof.
  revert hi outs value substrate.
  induction lo as [|f l IH] using rev_ind; intros hi outs value substrate Hb Houts.
  - apply Forall2_nil_inv_l in Houts as ->. by exists value.
  - rewrite length_app, Nat.add_1_r. cbn [seq_loop].
    rewrite <- app_assoc in Hb. cbn [app] in Hb.
    unfold py_getitem, getDefaultComponentByPosition. rewrite Hb.
    rewrite list_lookup_middle by done.
    unfold seq_selected in Houts. rewrite omap_app in Houts.
    fold (seq_selected l) in Houts.
    destruct f as [[c|] d]; cbn [mbind result_bind].
    + cbn [mbind result_bind].
      destruct (match d with Some d => value_eqb d c | None => false end)
        eqn:Heq.
      * assert (omap (fun f => match f with
                 | (Some c, Some d) => if value_eqb d c then None else Some c
                 | (Some c, None) => Some c
                 | (None, _) => None
                 end) [(Some c, d)] = []) as Hnil.
        { simpl. destruct d as [d|]; [by rewrite Heq | done]. }
        rewrite Hnil, app_nil_r in Houts. by apply (IH ((Some c, d) :: hi)).
      * assert (omap (fun f => match f with
                 | (Some c, Some d) => if value_eqb d c then None else Some c
                 | (Some c, None) => Some c
                 | (None, _) => None
                 end) [(Some c, d)] = [c]) as Hone.
        { simpl. destruct d as [d|]; [by rewrite Heq | done]. }
        rewrite Hone in Houts.
        apply Forall2_app_inv_l in Houts as (outs1 & outs2 & Ho1 & Ho2 & ->).
        apply Forall2_cons_inv_l in Ho2 as ([o c'] & outs3 & Henc & Hnil & ->).
        apply Forall2_nil_inv_l in Hnil as ->.
        rewrite Henc. cbn [mbind result_bind].
        destruct (IH ((Some c', d) :: hi) outs1
                    (with_component value (length l) c') (o ++ substrate))
          as (value' & ->); [| done |].
        { unfold with_component. rewrite Hb. cbn [clone_body body].
          f_equal. rewrite <- (Nat.add_0_r (length l)) at 1.
          by rewrite alter_app_r. }
        exists value'. do 2 f_equal. rewrite fmap_app, concat_app. simpl.
        by rewrite app_nil_r, <- app_assoc.
    + rewrite app_nil_r in Houts. by apply (IH ((None, d) :: hi)).
Qed.

(** C6.  SequenceEncoder.encodeValue first runs the value's
    setDefaultComponents hook, then its verifySizeSpec hook (a raise of
    either is the outcome), and then returns, as constructed content,
    the encodings of the components that are present and differ from
    their declared default, concatenated in positional order; the other
    positions give no octets. *)
Theorem SequenceEncoder_encodeValue_spec (fuel : nat) (value : Asn1Item) :
  let r := SequenceEncoder_encodeValue fuel encodeFun value defMode
             maxChunkSize in
  (forall e, setDefaultComponents value = Raise e -> r = Raise e) /\
  (forall value1, setDefaultComponents value = Ok value1 ->
     (forall e, verifySizeSpec value1 = Raise e -> r = Raise e) /\
     (verifySizeSpec value1 = Ok () ->
      forall fields, body value1 = SequenceV fields ->
      forall outs,
        Forall2 (fun c oc => encodeFun c defMode maxChunkSize = Ok oc)
                (seq_selected fields) outs ->
        exists value2, r = Ok (concat outs.*1, true, value2))).
Proof.
  intros r. subst r. unfold SequenceEncoder_encodeValue. split.
  - by intros e ->.
  - intros value1 ->. cbn [mbind result_bind]. split.
    + by intros e ->.
    + intros -> fields Hb outs Houts. cbn [mbind result_bind].
      unfold py_len. rewrite Hb. cbn [mbind result_bind].
      destruct (seq_loop_spec fields [] outs value1 null) as (value2 & ->);
        [by rewrite app_nil_r | done |].
      exists value2. cbn [mbind result_bind]. unfold null.
      by rewrite app_nil_r.
Qed.

End SequenceEncoder.

(** ** C10: what a call leaves of the value *)

Section Mutation.
Context `{ValueHooks}.


Lemma hook_stable_hook v v' :
  hook_stable v -> setDefaultComponents v = Ok v' -> v' = v.
Proof. destruct v. intros [Hh _]. apply Hh. Qed.

Lemma hook_stable_getitem v idx c :
  hook_stable v -> py_getitem v idx = Ok (Some c) -> hook_stable c.
Proof.
  destruct v as [ts bts tid b]. intros [_ Hsub]. unfold py_getitem.
  cbn [body] in *. destruct b; try done.
  - revert idx. induction fields as [|[c0 d0] fields IH]; intros idx;
      [by rewrite lookup_nil|].
    destruct idx as [|idx]; cbn [lookup list_lookup].
    + intros [= ->]. by destruct Hsub.
    + apply IH. by destruct c0; [destruct Hsub|].
  - revert idx. induction items as [|c0 items IH]; intros idx;
      [by rewrite lookup_nil|].
    destruct idx as [|idx]; cbn [lookup list_lookup].
    + intros [= ->]. by destruct Hsub.
    + apply IH. by destruct Hsub.
Qed.

Lemma hook_stable_getComponent v c :
  hook_stable v -> getComponent v = Ok c -> hook_stable c.
Proof.
  destruct v as [ts bts tid b]. intros [_ Hsub]. unfold getComponent.
  cbn [body] in *. destruct b; try done. by intros [= ->].
Qed.

(** Putting back the component that is there changes nothing. *)
Lemma with_component_same v idx c :
  py_getitem v idx = Ok (Some c) -> with_component v idx c = v.
Proof.
  destruct v as [ts bts tid b]. unfold py_getitem, with_component, clone_body.
  cbn [body getTagSet baseTagSet typeId]. destruct b; try done.
  - destruct (fields !! idx) as [[c0 d0]|] eqn:Hl; [|done]. intros [= ->].
    do 2 f_equal. apply list_eq. intros j.
    destruct (decide (j = idx)) as [->|].
    + by rewrite list_lookup_alter_eq, Hl.
    + by rewrite list_lookup_alter_ne by done.
  - destruct (items !! idx) as [c0|] eqn:Hl; [|done]. intros [= ->].
    do 2 f_equal. by apply list_insert_id.
Qed.

Lemma with_component_choice v c :
  getComponent v = Ok c -> with_component v 0 c = v.
Proof.
  destruct v as [ts bts tid b]. unfold getComponent, with_component, clone_body.
  cbn [body getTagSet baseTagSet typeId]. destruct b; try done.
  by intros [= ->].
Qed.


Lemma bind_Ok {A B} (m : result A) (f : A -> result B) (b : B) :
  m ≫= f = Ok b -> exists a, m = Ok a /\ f a = Ok b.
Proof. destruct m; [eauto | done | done]. Qed.

Ltac bind_inv H :=
  repeat match type of H with
         | _ ≫= _ = Ok _ =>
             let a := fresh "a" in
             let Ha := fresh "Hstep" in
             apply bind_Ok in H as (a & Ha & H)
         | (if ?b then _ else _) = Ok _ => destruct b eqn:?
         | (let '(_, _) := ?p in _) = Ok _ => destruct p eqn:?
         | Raise _ = Ok _ => discriminate H
         | OutOfFuel = Ok _ => discriminate H
         end.

Lemma seq_loop_frame encodeFun defMode maxChunkSize idx v substrate out v' :
  preserves encodeFun -> hook_stable v ->
  seq_loop encodeFun defMode maxChunkSize idx v substrate = Ok (out, v') ->
  v' = v.
Proof.
  intros Hef. revert substrate.
  induction idx as [|idx IH]; intros substrate Hst Hrun.
  - by injection Hrun as _ <-.
  - cbn [seq_loop] in Hrun. apply bind_Ok in Hrun as ([c|] & Hget & Hrun);
      [|by eapply IH].
    apply bind_Ok in Hrun as (d & Hdef & Hrun).
    destruct (match d with Some d0 => value_eqb d0 c | None => false end);
      [by eapply IH|].
    apply bind_Ok in Hrun as ([o c'] & Henc & Hrun).
    assert (c' = c) as ->
      by (eapply Hef; [by eapply hook_stable_getitem | done]).
    rewrite with_component_same in Hrun by done. by eapply IH.
Qed.

Lemma seqof_loop_frame encodeFun defMode maxChunkSize idx v substrate out v' :
  preserves encodeFun -> hook_stable v ->
  seqof_loop encodeFun defMode maxChunkSize idx v substrate = Ok (out, v') ->
  v' = v.
Proof.
  intros Hef. revert substrate.
  induction idx as [|idx IH]; intros substrate Hst Hrun.
  - by injection Hrun as _ <-.
  - cbn [seqof_loop] in Hrun.
    apply bind_Ok in Hrun as ([c|] & Hget & Hrun); [|done].
    apply bind_Ok in Hrun as ([o c'] & Henc & Hrun).
    assert (c' = c) as ->
      by (eapply Hef; [by eapply hook_stable_getitem | done]).
    rewrite with_component_same in Hrun by done. by eapply IH.
Qed.

Create HintDb preserving.

Ltac preserves_direct enc f :=
  intros fuel encodeFun v defMode maxChunkSize s isConstructed v' Hef Hst Hrun;
  unfold enc in Hrun; cbn [encodeValue] in Hrun; unfold f in Hrun;
  bind_inv Hrun; by injection Hrun as _ _ <-.

Lemma EndOfOctetsEncoder_preserves : encodeValue_preserves EndOfOctetsEncoder.
Proof. preserves_direct EndOfOctetsEncoder EndOfOctetsEncoder_encodeValue. Qed.

Lemma explicitlyTaggedItemEncoder_preserves :
  encodeValue_preserves explicitlyTaggedItemEncoder.
Proof. preserves_direct explicitlyTaggedItemEncoder ExplicitlyTaggedItemEncoder_encodeValue. Qed.

Lemma IntegerEncoder_preserves : encodeValue_preserves IntegerEncoder.
Proof. preserves_direct IntegerEncoder IntegerEncoder_encodeValue. Qed.

Lemma BitStringEncoder_preserves : encodeValue_preserves BitStringEncoder.
Proof. preserves_direct BitStringEncoder BitStringEncoder_encodeValue. Qed.

Lemma OctetStringEncoder_preserves : encodeValue_preserves OctetStringEncoder.
Proof. preserves_direct OctetStringEncoder OctetStringEncoder_encodeValue. Qed.

Lemma NullEncoder_preserves : encodeValue_preserves NullEncoder.
Proof. preserves_direct NullEncoder NullEncoder_encodeValue. Qed.

Lemma ObjectIdentifierEncoder_preserves :
  encodeValue_preserves ObjectIdentifierEncoder.
Proof. preserves_direct ObjectIdentifierEncoder ObjectIdentifierEncoder_encodeValue. Qed.

Lemma RealEncoder_preserves : encodeValue_preserves RealEncoder.
Proof. preserves_direct RealEncoder RealEncoder_encodeValue. Qed.

Lemma AnyEncoder_preserves : encodeValue_preserves AnyEncoder.
Proof. preserves_direct AnyEncoder AnyEncoder_encodeValue. Qed.

Lemma SequenceEncoder_preserves : encodeValue_preserves SequenceEncoder.
Proof.
  intros fuel encodeFun v defMode maxChunkSize s isConstructed v' Hef Hst Hrun.
  cbn [encodeValue SequenceEncoder] in Hrun.
  unfold SequenceEncoder_encodeValue in Hrun.
  apply bind_Ok in Hrun as (v1 & Hhook & Hrun).
  apply hook_stable_hook in Hhook as ->; [|done].
  apply bind_Ok in Hrun as (_ & _ & Hrun).
  apply bind_Ok in Hrun as (idx & _ & Hrun).
  apply bind_Ok in Hrun as ([substrate v2] & Hloop & Hrun).
  apply seq_loop_frame in Hloop as ->; [|done..].
  by injection Hrun as _ _ <-.
Qed.

Lemma SequenceOfEncoder_preserves : encodeValue_preserves SequenceOfEncoder.
Proof.
  intros fuel encodeFun v defMode maxChunkSize s isConstructed v' Hef Hst Hrun.
  cbn [encodeValue SequenceOfEncoder] in Hrun.
  unfold SequenceOfEncoder_encodeValue in Hrun.
  apply bind_Ok in Hrun as (_ & _ & Hrun).
  apply bind_Ok in Hrun as (idx & _ & Hrun).
  apply bind_Ok in Hrun as ([substrate v2] & Hloop & Hrun).
  apply seqof_loop_frame in Hloop as ->; [|done..].
  by injection Hrun as _ _ <-.
Qed.

Lemma ChoiceEncoder_preserves : encodeValue_preserves ChoiceEncoder.
Proof.
  intros fuel encodeFun v defMode maxChunkSize s isConstructed v' Hef Hst Hrun.
  cbn [encodeValue ChoiceEncoder] in Hrun.
  unfold ChoiceEncoder_encodeValue in Hrun.
  apply bind_Ok in Hrun as (c & Hget & Hrun).
  apply bind_Ok in Hrun as ([o c'] & Henc & Hrun).
  assert (c' = c) as ->
    by (eapply Hef; [by eapply hook_stable_getComponent | done]).
  rewrite with_component_choice in Hrun by done.
  by injection Hrun as _ _ <-.
Qed.

#[local] Hint Resolve EndOfOctetsEncoder_preserves
  explicitlyTaggedItemEncoder_preserves IntegerEncoder_preserves
  BitStringEncoder_preserves OctetStringEncoder_preserves
  NullEncoder_preserves ObjectIdentifierEncoder_preserves
  RealEncoder_preserves AnyEncoder_preserves SequenceEncoder_preserves
  SequenceOfEncoder_preserves ChoiceEncoder_preserves : preserving.

Lemma dict_lookup_elem {K} `{Countable K} {V} (l : list (K * V)) k v :
  dict l !! k = Some v -> v ∈ l.*2.
Proof.
  unfold dict.
  assert (forall m0 : gmap K V,
            fold_left (fun m kv => <[kv.1 := kv.2]> m) l m0 !! k = Some v ->
            v ∈ l.*2 \/ m0 !! k = Some v) as Hgen.
  { induction l as [|[k0 v0] l IH]; intros m0 Hl; [by right|].
    cbn [fold_left] in Hl. apply IH in Hl as [Hin | Hl].
    - left. cbn [fmap list_fmap]. by apply list_elem_of_further.
    - simpl in Hl. apply lookup_insert_Some in Hl as [[_ <-] | [_ Hl]].
      + left. apply list_elem_of_here.
      + by right. }
  intros Hl. apply Hgen in Hl as [Hin | Hl]; [done|].
  by rewrite lookup_empty in Hl.
Qed.

Lemma select_encoder_preserves v enc :
  select_encoder {| Encoder_tagMap := tagMap; Encoder_typeMap := typeMap |} v
    = Ok enc ->
  encodeValue_preserves enc.
Proof.
  assert (forall ts e, tagMap !! ts = Some e -> encodeValue_preserves e) as Htag.
  { intros ts e Hl%dict_lookup_elem. revert e Hl. apply Forall_forall.
    cbn [fmap list_fmap snd]. repeat constructor; auto with preserving. }
  assert (forall tid e, typeMap !! tid = Some e -> encodeValue_preserves e)
    as Htype.
  { intros tid e Hl%dict_lookup_elem. revert e Hl. apply Forall_forall.
    cbn [fmap list_fmap snd]. repeat constructor; auto with preserving. }
  assert (select_by_tagSet
            {| Encoder_tagMap := tagMap; Encoder_typeMap := typeMap |} v
          = Ok enc -> encodeValue_preserves enc) as Hby.
  { unfold select_by_tagSet. cbn [Encoder_tagMap].
    destruct (tagMap !! getTagSet v) eqn:H1; [intros [= <-]; eauto|].
    destruct (tagMap !! baseTagSet v) eqn:H2; [intros [= <-]; eauto | done]. }
  unfold select_encoder. cbn [Encoder_typeMap].
  destruct (1 <? length (getTagSet v))%nat;
    [intros [= <-]; auto with preserving|].
  destruct (typeId v) as [tid|]; [|done].
  destruct (typeMap !! tid) eqn:H1; [intros [= <-]; eauto | done].
Qed.

Lemma encode_preserves fuel : preserves (encode fuel).
Proof.
  unfold encode. induction fuel as [|fuel IH];
    intros v defMode maxChunkSize out v' Hst Hrun; [done|].
  cbn [Encoder_call] in Hrun.
  apply bind_Ok in Hrun as (enc & Hsel & Hrun).
  apply select_encoder_preserves in Hsel.
  unfold AbstractItemEncoder_encode in Hrun.
  apply bind_Ok in Hrun as ([[substrate isConstructed] v1] & Hval & Hrun).
  apply Hsel in Hval as ->; [|done..].
  destruct (last (getTagSet v)); [|by injection Hrun as _ <-].
  bind_inv Hrun. by injection Hrun as _ <-.
Qed.

(** C10, as the code has it.  The encoder changes a value only through
    the setDefaultComponents hook that SequenceEncoder.encodeValue runs:
    when that hook changes no value inside [v], the call leaves [v] as
    it was, and a second call with the same arguments returns the same
    octets. *)
Theorem encode_mutates_only_through_hook (fuel : nat) (v : Asn1Item)
    (defMode : bool) (maxChunkSize : Z) (out : octets) (v' : Asn1Item) :
  hook_stable v ->
  encode fuel v defMode maxChunkSize = Ok (out, v') ->
  v' = v /\ encode fuel v' defMode maxChunkSize = Ok (out, v').
Proof.
  intros Hst Hrun.
  assert (v' = v) as -> by (by eapply encode_preserves).
  done.
Qed.

End Mutation.

Lemma encode_mutates_only_through_hook_witness :
  let v := Sequence [(Some Null, None);
                     (Some (OctetString [113; 117]), None);
                     (Some (Integer 1), Some (Integer 33))] in
  @encode univHooks 3 v false 0
  = Ok ([48; 128; 5; 0; 4; 2; 113; 117; 2; 1; 1; 0; 0], v).
Proof.
  intros v.
  destruct (@encode_mutates_only_through_hook univHooks 3 v false 0
              [48; 128; 5; 0; 4; 2; 113; 117; 2; 1; 1; 0; 0] v)
    as [_ Hagain].
  - simpl. repeat split; intros v' Hv'; vm_compute in Hv';
      first [discriminate Hv' | injection Hv' as <-; reflexivity].
  - vm_compute. reflexivity.
  - exact Hagain.
Defined.

(** C10 as stated fails: encoding a SEQUENCE whose defaulted component
    is absent leaves the default at that position of the value. *)
Lemma encode_mutates_counterexample :
  let v := Sequence [(None, Some (Integer 33))] in
  exists out v',
    @encode univHooks 2 v true 0 = Ok (out, v') /\
    v' <> v /\
    py_getitem v 0 = Ok None /\
    py_getitem v' 0 = Ok (Some (Integer 33)).
Proof.
  intros v. eexists _, _. split; [vm_compute; reflexivity|].
  split; [|split; reflexivity]. discriminate.
Qed.

(** With the value class as modelled, the change shows in the octets of a
    second call: a component that differs from its default only by an
    absent defaulted field of its own is emitted the first time and
    skipped the second. *)
Example encode_twice_differs :
  let inner := Sequence [(None, Some (Integer 5))] in
  let dflt := Sequence [(Some (Integer 5), Some (Integer 5))] in
  let v := Sequence [(Some inner, Some dflt)] in
  exists v',
    @encode univHooks 3 v true 0 = Ok ([48; 2; 48; 0], v') /\
    exists v'', @encode univHooks 3 v' true 0 = Ok ([48; 0], v'').
Proof.
  intros inner dflt v. eexists. split; [vm_compute; reflexivity|].
  eexists. vm_compute. reflexivity.
Qed.

(** ** The model against the octets of the test corpus *)

Example corpus_integer :
  @encode univHooks 2 (Integer 12) true 0 = Ok ([2; 1; 12], Integer 12) /\
  @encode univHooks 2 (Integer (-12)) true 0
    = Ok ([2; 1; 244], Integer (-12)) /\
  @encode univHooks 2 (Integer 0xFFFFFFFFFFFFFFFF) true 0
    = Ok ([2; 9; 0; 255; 255; 255; 255; 255; 255; 255; 255],
          Integer 0xFFFFFFFFFFFFFFFF).
Proof. repeat split; by vm_compute. Qed.

Example corpus_oid :
  @encode univHooks 2 (ObjectIdentifier [1; 39]) true 0
    = Ok ([6; 1; 79], ObjectIdentifier [1; 39]) /\
  @encode univHooks 2 (ObjectIdentifier [2; 48]) true 0
    = Ok ([6; 1; 128], ObjectIdentifier [2; 48]).
Proof. repeat split; by vm_compute. Qed.

Example corpus_octet_string_chunked :
  let v := OctetString [81; 117; 105; 99; 107; 32; 98; 114; 111; 119; 110;
                        32; 102; 111; 120] in
  @encode univHooks 6 v false 4
  = Ok ([36; 128; 4; 4; 81; 117; 105; 99; 4; 4; 107; 32; 98; 114;
         4; 4; 111; 119; 110; 32; 4; 3; 102; 111; 120; 0; 0], v).
Proof. by vm_compute. Qed.

Example corpus_real_decimal :
  @encode univHooks 2 (Real 123 10 11) true 0
  = Ok ([9; 7; 3; 49; 50; 51; 69; 49; 49], Real 123 10 11).
Proof. by vm_compute. Qed.

Example corpus_sequence :
  let v := Sequence [(Some Null, None);
                     (Some (OctetString [113; 117; 105; 99; 107; 32; 98; 114;
                                         111; 119; 110]), None);
                     (Some (Integer 1), Some (Integer 33))] in
  @encode univHooks 3 v true 0
  = Ok ([48; 18; 5; 0; 4; 11; 113; 117; 105; 99; 107; 32; 98; 114; 111; 119;
         110; 2; 1; 1], v) /\
  @encode univHooks 6 v false 4
  = Ok ([48; 128; 5; 0; 36; 128; 4; 4; 113; 117; 105; 99; 4; 4; 107; 32; 98;
         114; 4; 3; 111; 119; 110; 0; 0; 2; 1; 1; 0; 0], v).
Proof. split; by vm_compute. Qed.

(** * Further properties of the encoder *)

(** ** INTEGER: how many octets *)

(** X1.  IntegerEncoder.encodeValue gives at most [k] octets exactly to the
    integers of the two's-complement range of [k] octets. *)
Theorem int_octets_length (n : Z) (k : nat) :
  (1 <= k)%nat ->
  (length (int_octets n) <= k)%nat <->
  -128 * 256 ^ (Z.of_nat k - 1) <= n < 128 * 256 ^ (Z.of_nat k - 1).
Proof.
  intros Hk. destruct (int_octets_spec n) as (Hne & Hoct & Hv & Hmin).
  destruct (int_octets n) as [|o0 rest] eqn:Hio; [done|].
  pose proof (be_signed_range o0 rest Hoct) as Hrange. rewrite Hv in Hrange.
  cbn [length]. split.
  - intros Hlen.
    assert (256 ^ Z.of_nat (length rest) <= 256 ^ (Z.of_nat k - 1))
      by (apply Z.pow_le_mono_r; lia).
    lia.
  - intros Hn. destruct rest as [|o1 rest]; [simpl; lia|].
    pose proof (int_minimal_large o0 o1 rest Hoct Hmin) as Hlarge.
    cbv zeta in Hlarge. rewrite Hv in Hlarge. cbn [length].
    destruct (decide (S (S (length rest)) <= k)%nat) as [|Hgt]; [done|].
    exfalso.
    assert (256 ^ (Z.of_nat k - 1) <= 256 ^ Z.of_nat (length rest))
      by (apply Z.pow_le_mono_r; lia).
    lia.
Qed.

Lemma int_octets_length_witness :
  (length (int_octets (-129)) <= 2)%nat <->
  -128 * 256 ^ (Z.of_nat 2 - 1) <= -129 < 128 * 256 ^ (Z.of_nat 2 - 1).
Proof. apply (int_octets_length (-129) 2). lia. Defined.

(** ** Base-128 digits are minimal and self-delimiting *)

Lemma tag_loop_lead fuel tagId s :
  0 < tagId < 128 ^ Z.of_nat fuel ->
  exists h pre,
    tag_loop fuel tagId s = Ok (h :: pre ++ s) /\ h <> 0x80.
Proof.
  revert tagId s. induction fuel as [|fuel IH]; intros tagId s Hrange.
  - simpl in Hrange. lia.
  - cbn [tag_loop]. destruct (Z.eqb_spec tagId 0); [lia|].
    destruct (continuation_octet tagId) as (Ho & Hb & Hl).
    rewrite int2oct_ok by done. cbn [mbind result_bind app].
    rewrite Nat2Z.inj_succ, Z.pow_succ_r in Hrange by lia.
    pose proof (Z.div_mod tagId 128 ltac:(lia)) as Hdm.
    pose proof (Z.mod_pos_bound tagId 128 ltac:(lia)) as Hm.
    destruct (decide (tagId `div` 128 = 0)) as [Hq | Hq].
    + rewrite shiftr_7, Hq. exists (Z.lor 128 (Z.land tagId 127)), [].
      split; [by destruct fuel|]. intros Heq.
      cbv zeta in Hl. rewrite Heq in Hl. change (Z.land 128 127) with 0 in Hl.
      lia.
    + destruct (IH (Z.shiftr tagId 7) (Z.lor 128 (Z.land tagId 127) :: s))
        as (h & pre & -> & Hh).
      { rewrite shiftr_7.
        assert (0 <= tagId `div` 128) by (apply Z.div_pos; lia).
        split; [lia|]. apply Z.div_lt_upper_bound; lia. }
      exists h, (pre ++ [Z.lor 128 (Z.land tagId 127)]).
      by rewrite <- app_assoc.
Qed.

Lemma encodeTag_long_rest (fuel : nat) (tagClass tagFormat tagId : Z)
    (isConstructed : bool) :
  31 <= tagId < 128 ^ Z.of_nat fuel ->
  exists lead rest,
    encodeTag fuel (tagClass, tagFormat, tagId) isConstructed
      = int2oct lead ≫= (fun h => Ok (h ++ rest)) /\
    (tagId < 128 -> rest = [tagId]) /\
    (128 <= tagId -> (1 < length rest)%nat /\ hd 0 rest <> 0x80).
Proof.
  intros Hid. unfold encodeTag.
  destruct (Z.ltb_spec tagId 31); [lia|].
  destruct (last_octet tagId) as (Hlo & _ & Hl7). cbv zeta in Hl7.
  rewrite (int2oct_ok (Z.land tagId 127)) by done. cbn [mbind result_bind].
  pose proof (Z.div_mod tagId 128 ltac:(lia)) as Hdm.
  pose proof (Z.mod_pos_bound tagId 128 ltac:(lia)) as Hm.
  destruct (Z.lt_ge_cases tagId 128) as [Hsmall | Hbig].
  - assert (Z.shiftr tagId 7 = 0) as ->
      by (rewrite shiftr_7; apply Z.div_small; lia).
    assert (tag_loop fuel 0 [Z.land tagId 127] = Ok [Z.land tagId 127]) as ->
      by (by destruct fuel).
    cbn [mbind result_bind]. eexists _, _. split; [done|].
    split; [|lia]. intros _. rewrite land_0x7f, Z.mod_small by lia. done.
  - destruct (tag_loop_lead fuel (Z.shiftr tagId 7) [Z.land tagId 127])
      as (h & pre & -> & Hh).
    { rewrite shiftr_7.
      assert (1 <= tagId `div` 128) by (apply Z.div_le_lower_bound; lia).
      split; [lia|]. apply Z.le_lt_trans with tagId; [|lia].
      apply Z.div_le_upper_bound; lia. }
    cbn [mbind result_bind]. eexists _, _. split; [done|].
    split; [lia|]. intros _. cbn [hd length].
    rewrite length_app. simpl. split; [lia | done].
Qed.

(** X2.  The number of a long-form tag has no leading zero digit: a number
    below 128 takes one octet, and from 128 on the first of the following
    octets is not 0x80. *)
Theorem encodeTag_number_minimal (fuel : nat) (tagClass tagFormat tagId : Z)
    (isConstructed : bool) :
  is_tagClass tagClass -> is_tagFormat tagFormat ->
  31 <= tagId < 128 ^ Z.of_nat fuel ->
  exists lead rest,
    encodeTag fuel (tagClass, tagFormat, tagId) isConstructed
      = Ok (lead :: rest) /\
    (tagId < 128 -> rest = [tagId]) /\
    (128 <= tagId -> (1 < length rest)%nat /\ hd 0 rest <> 0x80).
Proof.
  intros Hc Hf Hid.
  destruct (encodeTag_octets fuel tagClass tagFormat tagId isConstructed
              Hc Hf ltac:(lia)) as (lead & rest & Heq & _).
  destruct (encodeTag_long_rest fuel tagClass tagFormat tagId isConstructed
              Hid) as (lead' & rest' & Heq' & Hsmall & Hbig).
  rewrite Heq in Heq'. unfold int2oct in Heq'.
  destruct (bool_decide _); [|done]. injection Heq' as -> ->.
  by exists lead', rest'.
Qed.

Lemma encodeTag_number_minimal_witness :
  exists lead rest,
    encodeTag 2 (tagClassContext, tagFormatSimple, 1000) false
      = Ok (lead :: rest) /\
    (1000 < 128 -> rest = [1000]) /\
    (128 <= 1000 -> (1 < length rest)%nat /\ hd 0 rest <> 0x80).
Proof.
  apply (encodeTag_number_minimal 2 tagClassContext tagFormatSimple 1000 false).
  - right. right. left. reflexivity.
  - left. reflexivity.
  - simpl. lia.
Defined.

(** Two base-128 numbers that start the same octets are the same octets:
    the first octet without the high bit ends the number. *)
Lemma base128_prefix_free x y l1 l2 r1 r2 :
  base128_of x l1 -> base128_of y l2 -> l1 ++ r1 = l2 ++ r2 ->
  l1 = l2 /\ r1 = r2 /\ x = y.
Proof.
  intros (i1 & a & -> & Hi1 & _ & Ha & Hx) (i2 & b & -> & Hi2 & _ & Hb & Hy) Heq.
  assert (i1 ++ [a] = i2 ++ [b] /\ r1 = r2) as [Hl Hr].
  { clear Hx Hy. revert i2 Hi2 Heq.
    induction i1 as [|c i1 IH]; intros i2 Hi2 Heq.
    - destruct i2 as [|c2 i2].
      + by injection Heq as -> ->.
      + injection Heq as -> _. apply Forall_inv in Hi2 as [_ Hc2]. congruence.
    - apply Forall_cons in Hi1 as [[_ Hc] Hi1].
      destruct i2 as [|c2 i2].
      + injection Heq as -> _. congruence.
      + injection Heq as -> Heq. apply Forall_cons in Hi2 as [_ Hi2].
        destruct (IH Hi1 i2 Hi2 Heq) as [Hl ->]. simpl. by rewrite Hl. }
  split; [done|]. split; [done|]. by rewrite <- Hx, <- Hy, Hl.
Qed.

(** X3.  The identifier octets are self-delimiting: when the octets of two
    tags start the same stream they are the same octets, of the same class
    and number. *)
Theorem encodeTag_self_delimiting (fuel : nat)
    (c1 f1 id1 c2 f2 id2 : Z) (k1 k2 : bool) (o1 o2 r1 r2 : octets) :
  is_tagClass c1 -> is_tagFormat f1 -> 0 <= id1 < 128 ^ Z.of_nat fuel ->
  is_tagClass c2 -> is_tagFormat f2 -> 0 <= id2 < 128 ^ Z.of_nat fuel ->
  encodeTag fuel (c1, f1, id1) k1 = Ok o1 ->
  encodeTag fuel (c2, f2, id2) k2 = Ok o2 ->
  o1 ++ r1 = o2 ++ r2 ->
  o1 = o2 /\ r1 = r2 /\ c1 = c2 /\ id1 = id2.
Proof.
  intros Hc1 Hf1 Hid1 Hc2 Hf2 Hid2 He1 He2 Heq.
  destruct (encodeTag_octets fuel c1 f1 id1 k1 Hc1 Hf1 Hid1)
    as (l1 & t1 & He1' & _ & Hcl1 & _ & Hs1 & Hb1).
  destruct (encodeTag_octets fuel c2 f2 id2 k2 Hc2 Hf2 Hid2)
    as (l2 & t2 & He2' & _ & Hcl2 & _ & Hs2 & Hb2).
  rewrite He1 in He1'. rewrite He2 in He2'.
  injection He1' as ->. injection He2' as ->.
  injection Heq as -> Heq.
  assert (c1 = c2) as -> by congruence.
  destruct (Z.lt_ge_cases id1 31) as [Hlt1 | Hge1],
           (Z.lt_ge_cases id2 31) as [Hlt2 | Hge2].
  - destruct (Hs1 Hlt1) as [Hn1 ->], (Hs2 Hlt2) as [Hn2 ->].
    simpl in Heq. split; [done|]. split; [done|]. split; [done | congruence].
  - destruct (Hs1 Hlt1) as [Hn1 _], (Hb2 Hge2) as [Hn2 _]. lia.
  - destruct (Hb1 Hge1) as [Hn1 _], (Hs2 Hlt2) as [Hn2 _]. lia.
  - destruct (Hb1 Hge1) as [_ Hd1], (Hb2 Hge2) as [_ Hd2].
    destruct (base128_prefix_free _ _ _ _ _ _ Hd1 Hd2 Heq) as (-> & -> & ->).
    done.
Qed.

Lemma encodeTag_self_delimiting_witness :
  [31; 136; 0] = [31; 136; 0] /\ [7] = [7] /\
  tagClassUniversal = tagClassUniversal /\ 1024 = 1024.
Proof.
  apply (encodeTag_self_delimiting 2
           tagClassUniversal tagFormatSimple 1024
           tagClassUniversal tagFormatSimple 1024 false false
           [31; 136; 0] [31; 136; 0] [7] [7]).
  - left. reflexivity.
  - left. reflexivity.
  - simpl. lia.
  - left. reflexivity.
  - left. reflexivity.
  - simpl. lia.
  - reflexivity.
  - reflexivity.
  - reflexivity.
Defined.

(** X4.  The definite length octets are self-delimiting and give the length
    back. *)
Theorem encodeLength_self_delimiting (self1 self2 : AbstractItemEncoder)
    (fuel : nat) (len1 len2 : Z) (o1 o2 r1 r2 : octets) :
  0 <= len1 < 256 ^ Z.of_nat fuel -> 0 <= len2 < 256 ^ Z.of_nat fuel ->
  encodeLength self1 fuel len1 true = Ok o1 ->
  encodeLength self2 fuel len2 true = Ok o2 ->
  o1 ++ r1 = o2 ++ r2 ->
  o1 = o2 /\ r1 = r2 /\ len1 = len2.
Proof.
  intros H1 H2 He1 He2 Heq.
  assert (forall self len o,
    0 <= len < 256 ^ Z.of_nat fuel -> encodeLength self fuel len true = Ok o ->
    (len < 128 /\ o = [len]) \/
    exists digits,
      128 <= len /\ Z.of_nat (length digits) <= 126 /\
      o = (128 + Z.of_nat (length digits)) :: digits /\
      be_unsigned 256 digits = len) as Hshape.
  { intros self len o Hlen He.
    destruct (encodeLength_octets self fuel len true Hlen)
      as (_ & Hshort & Hlong).
    destruct (Z.lt_ge_cases len 128) as [Hlt | Hge].
    - left. rewrite Hshort in He by done. by injection He as <-.
    - right. destruct (Hlong eq_refl Hge) as (digits & _ & Hv & _ & Hok & Hov).
      cbv zeta in Hok, Hov. exists digits.
      destruct (Z.le_gt_cases (Z.of_nat (length digits)) 126) as [Hk | Hk].
      + destruct (Hok Hk) as [Hr Hsum]. rewrite Hr, Hsum in He.
        by injection He as <-.
      + rewrite Hov in He by done. done. }
  destruct (Hshape self1 len1 o1 H1 He1) as [[Hl1 ->] | (d1 & Hl1 & Hk1 & -> & Hv1)],
           (Hshape self2 len2 o2 H2 He2) as [[Hl2 ->] | (d2 & Hl2 & Hk2 & -> & Hv2)].
  - by injection Heq as -> ->.
  - injection Heq as -> _. lia.
  - injection Heq as Hh _. lia.
  - injection Heq as Hk Heq.
    apply app_inj_1 in Heq as [-> ->]; [|lia]. by rewrite <- Hv1, <- Hv2.
Qed.

Lemma encodeLength_self_delimiting_witness :
  [130; 1; 44] = [130; 1; 44] /\ [9] = [9] /\ 300 = 300.
Proof.
  apply (encodeLength_self_delimiting IntegerEncoder OctetStringEncoder 2
           300 300 [130; 1; 44] [130; 1; 44] [9] [9]).
  - simpl. lia.
  - simpl. lia.
  - reflexivity.
  - reflexivity.
  - reflexivity.
Defined.

(** ** OBJECT IDENTIFIER: the table, minimal digits, what octets tell *)

(** X5.  The table of precomputed prefixes changes no outcome: every OID
    gets what the general path gives it. *)
Theorem oid_precomputedValues_consistent (oid : list Z) :
  oid_octets oid = oid_octets_plain oid.
Proof. apply oid_octets_plain_eq. Qed.

Lemma oid_pack_loop_lead subid res :
  0 < subid ->
  exists h pre, oid_pack_loop subid res = h :: pre ++ res /\ h <> 0x80.
Proof.
  funelim (oid_pack_loop subid res); intros Hpos; [|lia].
  destruct (continuation_octet subid) as (Ho & Hb & Hl).
  pose proof (Z.div_mod subid 128 ltac:(lia)) as Hdm.
  pose proof (Z.mod_pos_bound subid 128 ltac:(lia)) as Hm.
  destruct (decide (subid `div` 128 = 0)) as [Hq | Hq].
  - rewrite shiftr_7, Hq. exists (Z.lor 128 (Z.land subid 127)), [].
    split; [by simp oid_pack_loop|]. intros Hd.
    cbv zeta in Hl. rewrite Hd in Hl. change (Z.land 128 127) with 0 in Hl.
    lia.
  - destruct H as (h & pre & -> & Hh).
    { rewrite shiftr_7.
      assert (0 <= subid `div` 128) by (apply Z.div_pos; lia). lia. }
    exists h, (pre ++ [Z.lor 128 (Z.land subid 127)]).
    by rewrite <- app_assoc.
Qed.

Lemma oid_subids_chunks subids octs :
  Forall (fun s => ~ subid_out_of_range s) subids ->
  exists chunks,
    oid_subids subids octs = Ok (octs ++ concat chunks) /\
    Forall2 subid_octets subids chunks.
Proof.
  revert octs. induction subids as [|subid rest IH]; intros octs Hall.
  - exists []. simpl. by rewrite app_nil_r.
  - apply Forall_cons in Hall as [Hs Hrest]. unfold subid_out_of_range in Hs.
    cbn [oid_subids].
    destruct (Z.ltb_spec (-1) subid), (Z.ltb_spec subid 128); cbn [andb];
      try (destruct (Z.ltb_spec subid 0), (Z.ltb_spec 0xFFFFFFFF subid);
           cbn [orb]; try lia).
    + destruct (IH (octs ++ [Z.land subid 127]) Hrest) as (chunks & -> & Hch).
      exists ([Z.land subid 127] :: chunks).
      split; [by rewrite <- app_assoc|]. constructor; [|done].
      split; [|split; [|lia]].
      * apply (base128_of_snoc subid []); [lia | done |].
        symmetry. apply Z.div_small. lia.
      * intros _. by rewrite land_0x7f, Z.mod_small by lia.
    + pose proof (Z.div_mod subid 128 ltac:(lia)) as Hdm.
      pose proof (Z.mod_pos_bound subid 128 ltac:(lia)) as Hm.
      destruct (oid_pack_loop_spec (Z.shiftr subid 7) [Z.land subid 127])
        as (pre & Hrun & Hpre & Hval).
      { rewrite shiftr_7. apply Z.div_pos; lia. }
      destruct (oid_pack_loop_lead (Z.shiftr subid 7) [Z.land subid 127])
        as (h & pre' & Hrun' & Hh).
      { rewrite shiftr_7. lia. }
      rewrite Hrun.
      destruct (IH (octs ++ pre ++ [Z.land subid 127]) Hrest)
        as (chunks & -> & Hch).
      exists ((pre ++ [Z.land subid 127]) :: chunks).
      split; [by rewrite <- app_assoc|]. constructor; [|done].
      split; [|split; [lia|]].
      * apply base128_of_snoc; [lia | done |]. by rewrite Hval, shiftr_7.
      * intros _. rewrite <- Hrun, Hrun'. done.
Qed.

Lemma oid_octets_Ok_inv oid octs :
  oid_octets oid = Ok octs ->
  exists first second rest chunks,
    oid = first :: second :: rest /\
    0 <= 40 * first + second <= 255 /\
    octs = (40 * first + second) :: concat chunks /\
    Forall2 subid_octets rest chunks.
Proof.
  rewrite oid_octets_plain_eq. unfold oid_octets_plain.
  destruct oid as [|first [|second rest]]; [done | done |].
  destruct (Z.ltb_spec (first * 40 + second) 0); [done|].
  destruct (Z.ltb_spec 0xff (first * 40 + second)); [done|]. cbn [orb].
  intros Hrun.
  destruct (decide (Exists subid_out_of_range rest)) as [Hbad | Hgood].
  { destruct (oid_subids_raises rest [first * 40 + second] Hbad) as [e He].
    congruence. }
  apply not_Exists_Forall in Hgood;
    [|intros s; unfold subid_out_of_range; apply _].
  destruct (oid_subids_chunks rest [first * 40 + second] Hgood)
    as (chunks & Hok & Hch).
  rewrite Hok in Hrun. injection Hrun as <-.
  exists first, second, rest, chunks. rewrite (Z.mul_comm 40).
  split; [done|]. split; [lia|]. done.
Qed.



Lemma subid_chunks_inj r1 r2 c1 c2 :
  Forall2 subid_octets r1 c1 -> Forall2 subid_octets r2 c2 ->
  concat c1 = concat c2 -> r1 = r2.
Proof.
  intros H1. revert r2 c2.
  induction H1 as [|x a r1 c1 [Ha _] _ IH]; intros r2 c2 H2 Heq.
  - destruct H2 as [|y b r2 c2 [Hb _] _]; [done|].
    destruct Hb as (i & l & -> & _). simpl in Heq.
    by destruct i.
  - destruct H2 as [|y b r2 c2 [Hb _] H2].
    + destruct Ha as (i & l & -> & _). simpl in Heq. by destruct i.
    + simpl in Heq.
      destruct (base128_prefix_free _ _ _ _ _ _ Ha Hb Heq) as (_ & Hr & ->).
      f_equal. by eapply IH.
Qed.

(** X7.  The octets tell an OID apart from every other one the encoder
    accepts, up to the sum 40*first + second of its first two
    sub-identifiers, which is all the first octet keeps of them. *)
Theorem oid_octets_injective (oid1 oid2 : list Z) (octs : list Z) :
  oid_octets oid1 = Ok octs -> oid_octets oid2 = Ok octs ->
  exists first1 second1 first2 second2 rest,
    oid1 = first1 :: second1 :: rest /\
    oid2 = first2 :: second2 :: rest /\
    40 * first1 + second1 = 40 * first2 + second2.
Proof.
  intros (f1 & s1 & r1 & c1 & -> & _ & -> & Hc1)%oid_octets_Ok_inv
         (f2 & s2 & r2 & c2 & -> & _ & Heq & Hc2)%oid_octets_Ok_inv.
  injection Heq as Hfirst Hcat.
  exists f1, s1, f2, s2, r1. split; [done|].
  by rewrite (subid_chunks_inj r1 r2 c1 c2).
Qed.

Lemma oid_octets_injective_witness :
  exists first1 second1 first2 second2 rest,
    [0; 80; 5] = first1 :: second1 :: rest /\
    [2; 0; 5] = first2 :: second2 :: rest /\
    40 * first1 + second1 = 40 * first2 + second2.
Proof.
  apply (oid_octets_injective [0; 80; 5] [2; 0; 5] [80; 5]);
    vm_compute; reflexivity.
Defined.

(** ** Frames of whole values *)

(** The frame when the length is definite: identifier, length, content. *)
Lemma encode_definite (self : AbstractItemEncoder) (fuel : nat)
    (encodeFun : EncodeFun) (value value' : Asn1Item) (defMode : bool)
    (maxChunkSize : Z) (substrate : octets) (isConstructed : bool)
    (tagClass tagFormat tagId : Z) :
  encodeValue self fuel encodeFun value defMode maxChunkSize
    = Ok (substrate, isConstructed, value') ->
  last (getTagSet value') = Some (tagClass, tagFormat, tagId) ->
  is_tagClass tagClass -> is_tagFormat tagFormat ->
  0 <= tagId < 128 ^ Z.of_nat fuel ->
  Z.of_nat (length substrate) < 256 ^ Z.of_nat (Nat.min fuel 126) ->
  isConstructed && negb defMode && supportIndefLenMode self = false ->
  exists tl ll,
    encodeTag fuel (tagClass, tagFormat, tagId) isConstructed = Ok tl /\
    encodeLength self fuel (Z.of_nat (length substrate)) true = Ok ll /\
    hd 0 ll <> 0x80 /\
    AbstractItemEncoder_encode self fuel encodeFun value defMode maxChunkSize
    = Ok (tl ++ ll ++ substrate, value').
Proof.
  intros Hval Htag Hc Hf Hid Hlen Hind.
  destruct (encodeTag_octets fuel tagClass tagFormat tagId isConstructed
              Hc Hf Hid) as (lead & rest & Htl & _).
  destruct (encodeLength_definite self fuel (Z.of_nat (length substrate))
              ltac:(lia)) as (ll & Hll & _ & Hhd).
  exists (lead :: rest), ll. split; [done|]. split; [done|]. split; [done|].
  unfold AbstractItemEncoder_encode. rewrite Hval.
  cbn [mbind result_bind]. rewrite Htag, Htl. cbn [mbind result_bind].
  assert (encodeLength self fuel (Z.of_nat (length substrate))
            (if negb isConstructed then true else defMode) = Ok ll /\
          _encodeEndOfOctets self encodeFun
            (if negb isConstructed then true else defMode) = Ok null)
    as [-> ->].
  { unfold _encodeEndOfOctets.
    destruct isConstructed, defMode; simpl in *; try done.
    unfold encodeLength in *. simpl. by rewrite Hind in *. }
  cbn [mbind result_bind]. unfold null. by rewrite app_nil_r.
Qed.

(** The frame when the length is indefinite: identifier, 0x80, content,
    and what [encodeFun] gives for the end-of-octets value. *)
Lemma encode_indefinite (self : AbstractItemEncoder) (fuel : nat)
    (encodeFun : EncodeFun) (value value' eoo' : Asn1Item) (maxChunkSize : Z)
    (substrate eoc : octets) (tagClass tagFormat tagId : Z) :
  encodeValue self fuel encodeFun value false maxChunkSize
    = Ok (substrate, true, value') ->
  last (getTagSet value') = Some (tagClass, tagFormat, tagId) ->
  is_tagClass tagClass -> is_tagFormat tagFormat ->
  0 <= tagId < 128 ^ Z.of_nat fuel ->
  supportIndefLenMode self = true ->
  encodeFun endOfOctets false 0 = Ok (eoc, eoo') ->
  exists tl,
    encodeTag fuel (tagClass, tagFormat, tagId) true = Ok tl /\
    Z.testbit (hd 0 tl) 5 = true /\
    AbstractItemEncoder_encode self fuel encodeFun value false maxChunkSize
    = Ok (tl ++ [0x80] ++ substrate ++ eoc, value').
Proof.
  intros Hval Htag Hc Hf Hid Hind Heoc.
  destruct (encodeTag_octets fuel tagClass tagFormat tagId true
              Hc Hf Hid) as (lead & rest & Htl & _ & _ & Hbit & _).
  exists (lead :: rest). split; [done|]. split; [apply Hbit; by left|].
  unfold AbstractItemEncoder_encode. rewrite Hval.
  cbn [mbind result_bind]. rewrite Htag, Htl. cbn [mbind result_bind negb].
  unfold encodeLength, _encodeEndOfOctets. rewrite Hind. cbn [negb andb orb].
  rewrite Heoc. done.
Qed.

Section WholeValues.
Context `{ValueHooks}.


(** X8.  An INTEGER is encoded the same in every mode and with every chunk
    size: the identifier octet 02, a definite length, the content of
    IntegerEncoder.encodeValue, and the value is left as it was. *)
Theorem encode_Integer (fuel : nat) (n : Z) (defMode : bool)
    (maxChunkSize : Z) :
  Z.of_nat (length (int_octets n)) < 256 ^ Z.of_nat (Nat.min fuel 126) ->
  exists ll,
    encodeLength IntegerEncoder fuel (Z.of_nat (length (int_octets n))) true
      = Ok ll /\
    hd 0 ll <> 0x80 /\
    encode (S fuel) (Integer n) defMode maxChunkSize
    = Ok ([0x02] ++ ll ++ int_octets n, Integer n).
Proof.
  intros Hlen. unfold encode. cbn [Encoder_call].
  assert (select_encoder
            {| Encoder_tagMap := tagMap; Encoder_typeMap := typeMap |}
            (Integer n) = Ok IntegerEncoder) as -> by (by vm_compute).
  cbn [mbind result_bind].
  destruct (int_octets_spec n) as (Hne & Hoct & _).
  assert (1 <= Z.of_nat (length (int_octets n)))
    by (destruct (int_octets n); [done | simpl; lia]).
  destruct (encode_definite IntegerEncoder fuel
              (Encoder_call
                 {| Encoder_tagMap := tagMap; Encoder_typeMap := typeMap |}
                 fuel)
              (Integer n) (Integer n) defMode maxChunkSize (int_octets n)
              false tagClassUniversal tagFormatSimple 2)
    as (tl & ll & Htl & Hll & Hhd & ->); try done.
  - cbn [encodeValue IntegerEncoder]. unfold IntegerEncoder_encodeValue.
    cbn [py_int Integer body mbind result_bind]. by rewrite ints2octs_ok.
  - by left.
  - by left.
  - destruct fuel as [|fuel]; [simpl in Hlen; lia|]. clear Hlen.
    rewrite Nat2Z.inj_succ, Z.pow_succ_r by lia.
    assert (0 < 128 ^ Z.of_nat fuel) by (apply Z.pow_pos_nonneg; lia). lia.
  - exists ll. split; [done|]. split; [done|].
    assert (tl = [2]) as -> by (vm_compute in Htl; congruence). done.
Qed.

End WholeValues.

Lemma encode_Integer_witness :
  exists ll,
    encodeLength IntegerEncoder 1 (Z.of_nat (length (int_octets (-129)))) true
      = Ok ll /\
    hd 0 ll <> 0x80 /\
    @encode univHooks 2 (Integer (-129)) false 7
    = Ok ([0x02] ++ ll ++ int_octets (-129), Integer (-129)).
Proof.
  apply (@encode_Integer univHooks 1 (-129) false 7). vm_compute. reflexivity.
Defined.

(** ** Explicit tags, CHOICE and ANY *)

(** X9.  A value under more than one tag is framed by its last tag around
    the encoding of the same value without that tag: the identifier octet
    has the constructed bit, the inner octets are taken as they are, in
    indefinite mode 0x80 and the marker 00 00 surround them, and the value
    itself is left as it was. *)
Theorem Encoder_call_explicit_tag (E : Encoder) (n : nat)
    (value inner' : Asn1Item) (defMode : bool) (maxChunkSize : Z)
    (o : octets) (tagClass tagFormat tagId : Z) :
  Encoder_tagMap E !! getTagSet endOfOctets = Some EndOfOctetsEncoder ->
  (1 < length (getTagSet value))%nat ->
  last (getTagSet value) = Some (tagClass, tagFormat, tagId) ->
  is_tagClass tagClass -> is_tagFormat tagFormat ->
  0 <= tagId < 128 ^ Z.of_nat (S n) ->
  Encoder_call E (S n)
    (clone_tagSet value (removelast (getTagSet value))) defMode maxChunkSize
    = Ok (o, inner') ->
  Z.of_nat (length o) < 256 ^ Z.of_nat (Nat.min (S n) 126) ->
  exists tl,
    encodeTag (S n) (tagClass, tagFormat, tagId) true = Ok tl /\
    Z.testbit (hd 0 tl) 5 = true /\
    if defMode then
      exists ll,
        encodeLength explicitlyTaggedItemEncoder (S n)
          (Z.of_nat (length o)) true = Ok ll /\
        Encoder_call E (S (S n)) value true maxChunkSize
        = Ok (tl ++ ll ++ o, value)
    else
      Encoder_call E (S (S n)) value false maxChunkSize
      = Ok (tl ++ [0x80] ++ o ++ [0x00; 0x00], value).
Proof.
  intros Heoo Hlen Htag Hc Hf Hid Hinner Ho.
  assert (select_encoder E value = Ok explicitlyTaggedItemEncoder) as Hsel.
  { unfold select_encoder. by destruct (Nat.ltb_spec 1 (length (getTagSet value))); [|lia]. }
  assert (encodeValue explicitlyTaggedItemEncoder (S n) (Encoder_call E (S n))
            value defMode maxChunkSize = Ok (o, true, value)) as Hval.
  { cbn [encodeValue explicitlyTaggedItemEncoder].
    unfold ExplicitlyTaggedItemEncoder_encodeValue.
    assert ((if isConstructedItem value
             then clone_tagSet value (removelast (getTagSet value))
             else clone_tagSet value (removelast (getTagSet value)))
            = clone_tagSet value (removelast (getTagSet value))) as ->
      by (by destruct (isConstructedItem value)).
    by rewrite Hinner. }
  destruct (encodeTag_octets (S n) tagClass tagFormat tagId true Hc Hf Hid)
    as (lead & rest & Htl & _ & _ & Hbit & _).
  exists (lead :: rest). split; [done|]. split; [apply Hbit; by left|].
  cbn [Encoder_call]. rewrite Hsel. cbn [mbind result_bind].
  destruct defMode.
  - destruct (encode_definite explicitlyTaggedItemEncoder (S n)
                (Encoder_call E (S n)) value value true maxChunkSize o true
                tagClass tagFormat tagId Hval Htag Hc Hf Hid Ho eq_refl)
      as (tl & ll & Htl' & Hll & _ & Henc).
    exists ll. split; [done|]. cbn [Encoder_call] in Henc. rewrite Henc.
    congruence.
  - destruct (encode_indefinite explicitlyTaggedItemEncoder (S n)
                (Encoder_call E (S n)) value value endOfOctets maxChunkSize o
                [0x00; 0x00] tagClass tagFormat tagId Hval Htag Hc Hf Hid
                eq_refl (Encoder_call_endOfOctets E n false 0 Heoo))
      as (tl & Htl' & _ & Henc).
    cbn [Encoder_call] in Henc. rewrite Henc. congruence.
Qed.

Lemma Encoder_call_explicit_tag_witness :
  let v := clone_tagSet (OctetString [81; 117])
             [(tagClassUniversal, tagFormatSimple, 4);
              (tagClassApplication, tagFormatSimple, 5)] in
  @encode univHooks 3 v false 0
  = Ok ([101; 128; 4; 2; 81; 117; 0; 0], v).
Proof.
  intros v.
  destruct (Encoder_call_explicit_tag
              {| Encoder_tagMap := @tagMap univHooks;
                 Encoder_typeMap := @typeMap univHooks |}
              1 v (OctetString [81; 117]) false 0 [4; 2; 81; 117]
              tagClassApplication tagFormatSimple 5)
    as (tl & Htl & _ & Henc).
  - vm_compute. reflexivity.
  - simpl. lia.
  - reflexivity.
  - right. left. reflexivity.
  - left. reflexivity.
  - simpl. lia.
  - vm_compute. reflexivity.
  - simpl. lia.
  - injection Htl as <-. exact Henc.
Defined.

Section ChoiceAndAny.
Context `{ValueHooks}.

(** X10.  An untagged CHOICE has no octets of its own: its encoding is the
    encoding of its component, and the component as the call leaves it is
    the component of the value afterwards. *)
Theorem encode_Choice_untagged (fuel : nat) (v c : Asn1Item)
    (defMode : bool) (maxChunkSize : Z) :
  getTagSet v = [] -> typeId v = Some Choice_typeId -> body v = ChoiceV c ->
  encode (S fuel) v defMode maxChunkSize
  = encode fuel c defMode maxChunkSize ≫= fun '(o, c') =>
      Ok (o, clone_body v (ChoiceV c')).
Proof.
  intros Hts Htid Hbody. unfold encode. cbn [Encoder_call].
  assert (select_encoder
            {| Encoder_tagMap := tagMap; Encoder_typeMap := typeMap |} v
          = Ok ChoiceEncoder) as ->.
  { unfold select_encoder. rewrite Hts, Htid. by vm_compute. }
  cbn [mbind result_bind]. unfold AbstractItemEncoder_encode.
  cbn [encodeValue ChoiceEncoder]. unfold ChoiceEncoder_encodeValue.
  unfold getComponent. rewrite Hbody. cbn [mbind result_bind].
  destruct (Encoder_call _ fuel c defMode maxChunkSize) as [[o c']| |];
    [|done..].
  cbn [mbind result_bind]. unfold with_component. rewrite Hbody.
  cbn [getTagSet clone_body]. by rewrite Hts.
Qed.


End ChoiceAndAny.

Lemma encode_Choice_untagged_witness :
  let v := mkItem [] [] (Some Choice_typeId) (ChoiceV (Integer 5)) in
  @encode univHooks 2 v true 0
  = @encode univHooks 1 (Integer 5) true 0 ≫= fun '(o, c') =>
      Ok (o, clone_body v (ChoiceV c')).
Proof.
  intros v. apply (@encode_Choice_untagged univHooks 1 v (Integer 5) true 0);
    reflexivity.
Defined.



(** ** SEQUENCE OF / SET OF, and the order of the calls *)

Section SequenceOfEncoder.
Context `{ValueHooks}.
Variables (encodeFun : EncodeFun) (defMode : bool) (maxChunkSize : Z).

Lemma seqof_loop_spec lo hi outs value substrate :
  body value = SequenceOfV (lo ++ hi) ->
  Forall2 (fun c oc => encodeFun c defMode maxChunkSize = Ok oc) lo outs ->
  seqof_loop encodeFun defMode maxChunkSize (length lo) value substrate
  = Ok (concat outs.*1 ++ substrate,
        clone_body value (SequenceOfV (outs.*2 ++ hi))).
Proof.
  revert hi outs value substrate.
  induction lo as [|c l IH] using rev_ind;
    intros hi outs value substrate Hb Houts.
  - apply Forall2_nil_inv_l in Houts as ->. simpl in *.
    rewrite <- Hb. by destruct value.
  - apply Forall2_app_inv_l in Houts as (outs1 & outs2 & Ho1 & Ho2 & ->).
    apply Forall2_cons_inv_l in Ho2 as ([o c'] & outs3 & Henc & Hnil & ->).
    apply Forall2_nil_inv_l in Hnil as ->.
    rewrite length_app, Nat.add_1_r. cbn [seqof_loop].
    rewrite <- app_assoc in Hb. cbn [app] in Hb.
    unfold py_getitem. rewrite Hb, list_lookup_middle by done.
    cbn [mbind result_bind]. rewrite Henc. cbn [mbind result_bind].
    rewrite (IH (c' :: hi) outs1).
    + rewrite !fmap_app, concat_app. cbn [fmap list_fmap concat fst snd].
      rewrite app_nil_r, <- !app_assoc. unfold with_component.
      rewrite Hb. by cbn [clone_body getTagSet baseTagSet typeId app].
    + unfold with_component. rewrite Hb. cbn [clone_body body]. f_equal.
      rewrite <- (Nat.add_0_r (length l)). by rewrite insert_app_r.
    + done.
Qed.

(** X12.  SequenceOfEncoder.encodeValue runs verifySizeSpec first (its raise
    is the outcome), then gives as constructed content the encodings of all
    the items in order, none skipped; each item is afterwards as its call
    left it. *)
Theorem SequenceOfEncoder_encodeValue_spec (fuel : nat) (value : Asn1Item) :
  let r := SequenceOfEncoder_encodeValue fuel encodeFun value defMode
             maxChunkSize in
  (forall e, verifySizeSpec value = Raise e -> r = Raise e) /\
  (verifySizeSpec value = Ok () ->
   forall items, body value = SequenceOfV items ->
   forall outs,
     Forall2 (fun c oc => encodeFun c defMode maxChunkSize = Ok oc)
             items outs ->
     r = Ok (concat outs.*1, true, clone_body value (SequenceOfV outs.*2))).
Proof.
  intros r. subst r. unfold SequenceOfEncoder_encodeValue. split.
  - by intros e ->.
  - intros -> items Hb outs Houts. cbn [mbind result_bind].
    unfold py_len. rewrite Hb. cbn [mbind result_bind].
    rewrite (seqof_loop_spec items [] outs); [|by rewrite app_nil_r | done].
    cbn [mbind result_bind]. unfold null. by rewrite !app_nil_r.
Qed.

(** X13.  The items are encoded from the last one down: when the call on an
    item raises and the calls on the items after it return, that raise is
    the outcome, whatever the items before it would do. *)
Theorem SequenceOfEncoder_raise_of_last (fuel : nat) (value : Asn1Item)
    (before after : list Asn1Item) (c : Asn1Item) (e : exn)
    (outs : list (octets * Asn1Item)) :
  verifySizeSpec value = Ok () ->
  body value = SequenceOfV (before ++ c :: after) ->
  Forall2 (fun c oc => encodeFun c defMode maxChunkSize = Ok oc) after outs ->
  encodeFun c defMode maxChunkSize = Raise e ->
  SequenceOfEncoder_encodeValue fuel encodeFun value defMode maxChunkSize
  = Raise e.
Proof.
  intros Hsize Hb Houts He. unfold SequenceOfEncoder_encodeValue.
  rewrite Hsize. cbn [mbind result_bind]. unfold py_len. rewrite Hb.
  cbn [mbind result_bind].
  assert (forall hi substrate value,
    body value = SequenceOfV ((before ++ [c]) ++ after ++ hi) ->
    seqof_loop encodeFun defMode maxChunkSize
      (length ((before ++ [c]) ++ after)) value substrate = Raise e) as Hloop.
  { clear value Hb Hsize. revert outs Houts.
    induction after as [|a l IH] using rev_ind;
      intros outs Houts hi substrate value Hb.
    - rewrite app_nil_r, length_app, Nat.add_1_r. cbn [seqof_loop].
      unfold py_getitem. rewrite Hb, <- !app_assoc. cbn [app].
      rewrite list_lookup_middle by done.
      cbn [mbind result_bind]. by rewrite He.
    - apply Forall2_app_inv_l in Houts as (outs1 & outs2 & Ho1 & Ho2 & ->).
      apply Forall2_cons_inv_l in Ho2 as ([o a'] & outs3 & Henc & _ & ->).
      rewrite (app_assoc _ l [a]), length_app, Nat.add_1_r.
      cbn [seqof_loop]. unfold py_getitem. rewrite Hb.
      assert ((before ++ [c]) ++ (l ++ [a]) ++ hi
              = ((before ++ [c]) ++ l) ++ a :: hi) as Hsplit
        by (by rewrite <- !app_assoc).
      rewrite Hsplit, list_lookup_middle by done.
      cbn [mbind result_bind]. rewrite Henc. cbn [mbind result_bind].
      apply (IH outs1 Ho1 (a' :: hi)).
      unfold with_component. rewrite Hb, Hsplit. cbn [clone_body body].
      f_equal. rewrite <- (Nat.add_0_r (length _)).
      rewrite insert_app_r. by rewrite <- app_assoc. }
  assert (seqof_loop encodeFun defMode maxChunkSize
            (length (before ++ c :: after)) value null = Raise e) as ->;
    [|done].
  replace (before ++ c :: after) with ((before ++ [c]) ++ after)
    by (by rewrite <- app_assoc).
  apply (Hloop []). by rewrite Hb, app_nil_r, <- app_assoc.
Qed.

End SequenceOfEncoder.

Lemma SequenceOfEncoder_raise_of_last_witness :
  let items := [Real 1 3 0; ObjectIdentifier [1]; Integer 1] in
  let v := mkItem (univTagSet tagFormatConstructed 16)
             (univTagSet tagFormatConstructed 16) (Some SequenceOf_typeId)
             (SequenceOfV items) in
  @SequenceOfEncoder_encodeValue univHooks 3 (@encode univHooks 3) v true 0
  = Raise ShortOID.
Proof.
  intros items v.
  apply (@SequenceOfEncoder_raise_of_last univHooks (@encode univHooks 3)
           true 0 3 v [Real 1 3 0] [Integer 1] (ObjectIdentifier [1])
           ShortOID [([2; 1; 1], Integer 1)]).
  - reflexivity.
  - reflexivity.
  - repeat constructor.
  - reflexivity.
Defined.

(** ** REAL: the base, the sign, the normal form *)

Lemma be_loop_not_raise fuel x s e : be_loop fuel x s <> Raise e.
Proof.
  revert x s. induction fuel as [|fuel IH]; intros x s.
  - simpl. by destruct (x =? 0).
  - cbn [be_loop]. destruct (x =? 0); [done|].
    rewrite land_0xff, int2oct_ok by (apply Z.mod_pos_bound; lia).
    apply IH.
Qed.

Lemma real_normalize_not_raise fuel m e err :
  real_normalize fuel m e <> Raise err.
Proof.
  revert m e. induction fuel as [|fuel IH]; intros m e.
  - simpl. by destruct (negb _).
  - cbn [real_normalize]. destruct (negb _); [done | apply IH].
Qed.

(** X14.  A zero mantissa gives empty content whatever the base; a nonzero
    one with a base other than 2 and 10 raises the prohibited-base error;
    and that error has no other cause. *)
Theorem real_octets_base (fuel : nat) (m b e : Z) :
  (m = 0 -> real_octets fuel (Finite m b e) = Ok []) /\
  (m <> 0 -> b <> 2 -> b <> 10 ->
   real_octets fuel (Finite m b e) = Raise (ProhibitedRealBase b)) /\
  (forall b', real_octets fuel (Finite m b e) = Raise (ProhibitedRealBase b') ->
   m <> 0 /\ b <> 2 /\ b <> 10 /\ b' = b).
Proof.
  unfold real_octets. split; [by intros ->|]. split.
  - intros Hm H2 H10.
    destruct (Z.eqb_spec m 0); [done|]. destruct (Z.eqb_spec b 10); [done|].
    by destruct (Z.eqb_spec b 2).
  - intros b'. destruct (Z.eqb_spec m 0); [done|].
    destruct (Z.eqb_spec b 10); [done|].
    destruct (Z.eqb_spec b 2) as [-> | Hb2]; [|by intros [= ->]].
    intros Hrun. exfalso.
    destruct (if m <? 0 then (Z.lor 128 64, - m) else (128, m)) as [fo m'].
    destruct (real_normalize fuel m' e) as [[m0 e0]|err|] eqn:Hn;
      [|by apply real_normalize_not_raise in Hn | done].
    cbn [mbind result_bind] in Hrun.
    destruct (be_loop fuel e0 null) as [eo|err|] eqn:He;
      [|by apply be_loop_not_raise in He | done].
    cbn [mbind result_bind] in Hrun.
    destruct (255 <? Z.of_nat (length eo)); [done|].
    destruct (real_exp_header fo eo) as [[fo' eo']|err|] eqn:Hh.
    + cbn [mbind result_bind] in Hrun.
      destruct (be_loop fuel m0 null) as [po|err|] eqn:Hp;
        [|by apply be_loop_not_raise in Hp | done].
      cbn [mbind result_bind] in Hrun. unfold int2oct in Hrun.
      by destruct (bool_decide _).
    + cbn [mbind result_bind] in Hrun. injection Hrun as ->.
      unfold real_exp_header, int2oct in Hh.
      repeat (match type of Hh with (if ?c then _ else _) = _ =>
                destruct c end; try done).
      by destruct (bool_decide _).
    + done.
Qed.

(** X15.  The sign of a base-2 value shows in the 0x40 bit of the first
    octet and nowhere else. *)
Theorem real_octets_sign (fuel : nat) (m e : Z) (h : Z) (rest : octets) :
  0 < m ->
  real_octets fuel (Finite m 2 e) = Ok (h :: rest) ->
  Z.testbit h 6 = false /\
  real_octets fuel (Finite (- m) 2 e) = Ok (Z.lor h 0x40 :: rest).
Proof.
  intros Hm. unfold real_octets.
  destruct (Z.eqb_spec m 0); [lia|]. destruct (Z.eqb_spec (- m) 0); [lia|].
  cbn [Z.eqb Pos.eqb].
  destruct (Z.ltb_spec m 0); [lia|]. destruct (Z.ltb_spec (- m) 0); [|lia].
  rewrite Z.opp_involutive.
  destruct (real_normalize fuel m e) as [[m0 e0]| |]; [|done..].
  cbn [mbind result_bind].
  destruct (be_loop fuel e0 null) as [eo| |]; [|done..].
  cbn [mbind result_bind].
  destruct (255 <? Z.of_nat (length eo)); [done|].
  assert (exists k eo',
            (k = 0 \/ k = 1 \/ k = 2 \/ k = 3) /\
            ((forall fo, real_exp_header fo eo = Raise ValueError) \/
             (forall fo, real_exp_header fo eo = Ok (Z.lor fo k, eo'))))
    as (k & eo' & Hk & Hhdr).
  { unfold real_exp_header.
    destruct (Z.of_nat (length eo) =? 1);
      [exists 0, eo; split; [auto|]; right; intros fo; by rewrite Z.lor_0_r|].
    destruct (Z.of_nat (length eo) =? 2);
      [exists 1, eo; split; [auto|]; by right|].
    destruct (Z.of_nat (length eo) =? 3);
      [exists 2, eo; split; [auto|]; by right|].
    exists 3, (Z.of_nat (length eo) `div` 255 + 1 :: eo). split; [auto|].
    unfold int2oct. destruct (bool_decide _); [by right | by left]. }
  destruct Hhdr as [Hhdr | Hhdr]; rewrite !Hhdr; [done|].
  cbn [mbind result_bind].
  destruct (be_loop fuel m0 null) as [po| |]; [|done..].
  cbn [mbind result_bind].
  assert (int2oct (Z.lor 128 k) = Ok [Z.lor 128 k] /\
          int2oct (Z.lor (Z.lor 128 64) k) = Ok [Z.lor (Z.lor 128 k) 64] /\
          Z.testbit (Z.lor 128 k) 6 = false) as (-> & -> & Hbit)
    by (destruct Hk as [-> | [-> | [-> | ->]]]; by vm_compute).
  cbn [mbind result_bind app]. intros [= <- <-]. done.
Qed.

Lemma real_octets_sign_witness :
  Z.testbit 128 6 = false /\
  real_octets 3 (Finite (- 3) 2 5) = Ok (Z.lor 128 0x40 :: [5; 3]).
Proof.
  apply (real_octets_sign 3 3 5 128 [5; 3]); [lia | reflexivity].
Defined.

Lemma be_loop_more_fuel fuel x s r :
  be_loop fuel x s = Ok r -> be_loop (S fuel) x s = Ok r.
Proof.
  revert x s. induction fuel as [|fuel IH]; intros x s.
  - cbn [be_loop]. by destruct (x =? 0).
  - intros Hrun. cbn [be_loop] in Hrun. cbn [be_loop].
    destruct (x =? 0); [done|].
    destruct (int2oct (Z.land x 255)) as [o| |]; [|done..].
    cbn [mbind result_bind] in *. by apply IH.
Qed.

(** X16.  Doubling the mantissa and taking one off the exponent changes
    nothing: both forms of the number get the octets of its normal form. *)
Theorem real_octets_normal_form (fuel : nat) (m e : Z) (o : octets) :
  m <> 0 ->
  real_octets fuel (Finite m 2 (e + 1)) = Ok o ->
  real_octets (S fuel) (Finite (2 * m) 2 e) = Ok o.
Proof.
  intros Hm. unfold real_octets.
  destruct (Z.eqb_spec m 0); [lia|]. destruct (Z.eqb_spec (2 * m) 0); [lia|].
  cbn [Z.eqb Pos.eqb].
  assert (forall fo m',
    ('(m0, e0) ← real_normalize fuel m' (e + 1);
     eo ← be_loop fuel e0 null;
     (let n := Z.of_nat (length eo) in
      if 255 <? n then Raise RealExponentOverflow
      else '(fo0, eo0) ← real_exp_header fo eo;
           po ← be_loop fuel m0 null; h ← int2oct fo0; Ok (h ++ eo0 ++ po)))
    = Ok o ->
    ('(m0, e0) ← real_normalize (S fuel) (2 * m') e;
     eo ← be_loop (S fuel) e0 null;
     (let n := Z.of_nat (length eo) in
      if 255 <? n then Raise RealExponentOverflow
      else '(fo0, eo0) ← real_exp_header fo eo;
           po ← be_loop (S fuel) m0 null; h ← int2oct fo0;
           Ok (h ++ eo0 ++ po)))
    = Ok o) as Hstep.
  { intros fo m' Hrun.
    assert (real_normalize (S fuel) (2 * m') e
            = real_normalize fuel m' (e + 1)) as ->.
    { cbn [real_normalize].
      assert ((Z.land (2 * m') 1 =? 0) = true) as ->.
      { change 1 with (Z.ones 1) at 1. rewrite Z.land_ones by lia.
        change (2 ^ 1) with 2. rewrite Z.mul_comm, Z.mod_mul by lia. done. }
      cbn [negb]. rewrite Z.shiftr_div_pow2 by lia. change (2 ^ 1) with 2.
      by rewrite Z.mul_comm, Z.div_mul by lia. }
    destruct (real_normalize fuel m' (e + 1)) as [[m0 e0]| |]; [|done..].
    cbn [mbind result_bind] in *.
    destruct (be_loop fuel e0 null) as [eo| |] eqn:He; [|done..].
    rewrite (be_loop_more_fuel _ _ _ _ He). cbn [mbind result_bind] in *.
    destruct (255 <? Z.of_nat (length eo)); [done|].
    destruct (real_exp_header fo eo) as [[fo' eo']| |]; [|done..].
    cbn [mbind result_bind] in *.
    destruct (be_loop fuel m0 null) as [po| |] eqn:Hp; [|done..].
    by rewrite (be_loop_more_fuel _ _ _ _ Hp). }
  destruct (Z.ltb_spec m 0), (Z.ltb_spec (2 * m) 0); try lia.
  - replace (- (2 * m)) with (2 * - m) by lia. apply Hstep.
  - apply Hstep.
Qed.

Lemma real_octets_normal_form_witness :
  real_octets 3 (Finite (2 * 3) 2 4) = Ok [128; 5; 3].
Proof.
  apply (real_octets_normal_form 2 3 4 [128; 5; 3]); [lia | reflexivity].
Defined.

(** ** Chunked strings *)

Lemma chunks_nil {A} (n : nat) : chunks n (@nil A) = [].
Proof. simp chunks. destruct (decide _); [done | naive_solver]. Qed.

Lemma chunks_cons {A} (n : nat) (r : list A) :
  n <> 0%nat -> r <> [] -> chunks n r = take n r :: chunks n (drop n r).
Proof.
  intros Hn Hr. rewrite chunks_equation_1.
  destruct (decide _) as [[?|?]|]; [done | done |]. by simpl.
Qed.

Lemma chunks_spec {A} (n : nat) (r : list A) :
  n <> 0%nat ->
  concat (chunks n r) = r /\
  Forall (fun c => (0 < length c <= n)%nat) (chunks n r) /\
  (forall i c, chunks n r !! i = Some c -> (S i < length (chunks n r))%nat ->
               length c = n).
Proof.
  intros Hn. remember (length r) as k eqn:Hk. revert r Hk.
  induction k as [k IH] using lt_wf_ind; intros r Hk.
  destruct r as [|x r].
  { rewrite chunks_nil. split; [done|]. split; [done|]. by intros []. }
  rewrite chunks_cons by done.
  destruct (IH (length (drop n (x :: r)))
              ltac:(rewrite length_drop; simpl in *; lia)
              (drop n (x :: r)) eq_refl) as (Hcat & Hall & Hfull).
  split; [|split].
  - cbn [concat]. by rewrite Hcat, take_drop.
  - constructor; [|done]. rewrite length_take. simpl. lia.
  - intros [|i] c; cbn [lookup list_lookup length].
    + intros [= <-] Hlen. rewrite length_take.
      destruct (decide (n <= length (x :: r))%nat); [lia|].
      rewrite drop_ge, chunks_nil in Hlen by lia. simpl in Hlen. lia.
    + intros Hc Hlen. apply (Hfull i c Hc). lia.
Qed.

Lemma py_slice_nonneg {A} (l : list A) (a b : Z) :
  0 <= a -> a <= b ->
  py_slice l a b = take (Z.to_nat (b - a)) (drop (Z.to_nat a) l).
Proof.
  intros Ha Hb. unfold py_slice, py_clamp.
  destruct (Z.ltb_spec a 0), (Z.ltb_spec b 0); try lia.
  set (n := Z.of_nat (length l)).
  destruct (Z.le_gt_cases n a).
  - replace (Z.max 0 (Z.min n a)) with n by lia.
    replace (Z.max 0 (Z.min n b)) with n by lia.
    rewrite !drop_ge by lia. by rewrite !take_nil.
  - replace (Z.max 0 (Z.min n a)) with a by lia.
    destruct (Z.le_gt_cases b n).
    + by replace (Z.max 0 (Z.min n b)) with b by lia.
    + replace (Z.max 0 (Z.min n b)) with n by lia.
      rewrite !take_ge; [done | rewrite length_drop; lia..].
Qed.

Lemma chunk_loop_spec {A} (mk : list A -> Asn1Item) (n : nat)
    (encodeFun : EncodeFun) (chunk : Z -> Asn1Item)
    (empty : Asn1Item -> bool) (defMode : bool) (maxChunkSize : Z) :
  (forall c, empty (mk c) = bool_decide (c = [])) -> n <> 0%nat ->
  forall fuel r pos substrate outs,
    (forall j : nat,
       chunk (pos + Z.of_nat j * maxChunkSize)
       = mk (take n (drop (j * n) r))) ->
    (length (chunks n r) <= fuel)%nat ->
    Forall2 (fun c oc => encodeFun (mk c) defMode maxChunkSize = Ok oc)
            (chunks n r) outs ->
    chunk_loop fuel encodeFun chunk empty defMode maxChunkSize pos substrate
    = Ok (substrate ++ concat outs.*1).
Proof.
  intros Hempty Hn fuel.
  induction fuel as [|fuel IH]; intros r pos substrate outs Hchunk Hfuel Houts.
  - assert (chunks n r = []) as Hnil
      by (destruct (chunks n r); [done | simpl in Hfuel; lia]).
    destruct r as [|x r]; [|by rewrite chunks_cons in Hnil].
    rewrite chunks_nil in Houts. apply Forall2_nil_inv_l in Houts as ->.
    cbn [chunk_loop]. specialize (Hchunk 0%nat).
    rewrite Z.mul_0_l, Z.add_0_r in Hchunk. rewrite Hchunk, Hempty.
    rewrite drop_nil, take_nil. simpl. by rewrite app_nil_r.
  - cbn [chunk_loop]. pose proof (Hchunk 0%nat) as H0.
    rewrite Z.mul_0_l, Z.add_0_r in H0. cbn [Nat.mul] in H0.
    rewrite drop_0 in H0. rewrite H0, Hempty.
    destruct r as [|x r].
    { rewrite chunks_nil in Houts. apply Forall2_nil_inv_l in Houts as ->.
      rewrite take_nil. simpl. by rewrite app_nil_r. }
    rewrite chunks_cons in Houts, Hfuel by done.
    apply Forall2_cons_inv_l in Houts as ([o v'] & outs' & Henc & Houts & ->).
    rewrite bool_decide_eq_false_2 by (destruct n; [done | by simpl]).
    rewrite Henc. cbn [mbind result_bind].
    rewrite (IH (drop n (x :: r)) _ _ outs'); [| | simpl in Hfuel; lia | done].
    + cbn [fmap list_fmap concat fst]. by rewrite <- app_assoc.
    + intros j. specialize (Hchunk (S j)).
      rewrite drop_drop. replace (n + j * n)%nat with (S j * n)%nat by lia.
      rewrite <- Hchunk. f_equal. lia.
Qed.

(** X19.  When the string is longer than a positive chunk size,
    OctetStringEncoder.encodeValue cuts it into chunks of that many octets,
    the last one possibly shorter, and gives as constructed content the
    encodings of the chunks in order. *)
Theorem OctetStringEncoder_chunked (fuel : nat) (encodeFun : EncodeFun)
    (value : Asn1Item) (s : octets) (defMode : bool) (maxChunkSize : Z)
    (outs : list (octets * Asn1Item)) :
  let cs := chunks (Z.to_nat maxChunkSize) s in
  body value = OctetStringV s ->
  0 < maxChunkSize < Z.of_nat (length s) ->
  (length cs <= fuel)%nat ->
  Forall2 (fun c oc =>
             encodeFun (clone_body value (OctetStringV c)) defMode
               maxChunkSize = Ok oc) cs outs ->
  OctetStringEncoder_encodeValue fuel encodeFun value defMode maxChunkSize
    = Ok (concat outs.*1, true, value) /\
  concat cs = s /\
  Forall (fun c => 0 < Z.of_nat (length c) <= maxChunkSize) cs /\
  (forall i c, cs !! i = Some c -> (S i < length cs)%nat ->
               Z.of_nat (length c) = maxChunkSize).
Proof.
  intros cs Hb Hmcs Hfuel Houts.
  destruct (chunks_spec (Z.to_nat maxChunkSize) s ltac:(lia))
    as (Hcat & Hall & Hfull).
  split; [|split; [done|split]].
  - unfold OctetStringEncoder_encodeValue, py_bytes. rewrite Hb.
    cbn [mbind result_bind].
    destruct (Z.eqb_spec maxChunkSize 0); [lia|].
    destruct (Z.leb_spec (Z.of_nat (length s)) maxChunkSize); [lia|].
    cbn [orb].
    erewrite (chunk_loop_spec
                (fun c => clone_body value (OctetStringV c))
                (Z.to_nat maxChunkSize) encodeFun _ _ defMode maxChunkSize
                _ _ fuel s 0 null outs); [done | | done | done].
    intros j. rewrite py_slice_nonneg by nia.
    do 3 f_equal; [lia|].
    by rewrite Z.add_0_l, Z2Nat.inj_mul, Nat2Z.id by lia.
    Unshelve. { by intros []. } { lia. }
  - eapply Forall_impl; [done|]. simpl. lia.
  - intros i c Hc Hi. rewrite (Hfull i c Hc Hi). lia.
Qed.

(** X20.  When the bit string is longer than eight times a positive chunk
    size, BitStringEncoder.encodeValue cuts it into chunks of that many
    bits, the last one possibly shorter, and gives as constructed content
    the encodings of the chunks in order. *)
Theorem BitStringEncoder_chunked (fuel : nat) (encodeFun : EncodeFun)
    (value : Asn1Item) (bits : list bool) (defMode : bool) (maxChunkSize : Z)
    (outs : list (octets * Asn1Item)) :
  let cs := chunks (Z.to_nat (maxChunkSize * 8)) bits in
  body value = BitStringV bits ->
  0 < maxChunkSize -> maxChunkSize * 8 < Z.of_nat (length bits) ->
  (length cs <= fuel)%nat ->
  Forall2 (fun c oc =>
             encodeFun (clone_body value (BitStringV c)) defMode
               maxChunkSize = Ok oc) cs outs ->
  BitStringEncoder_encodeValue fuel encodeFun value defMode maxChunkSize
    = Ok (concat outs.*1, true, value) /\
  concat cs = bits /\
  Forall (fun c => 0 < Z.of_nat (length c) <= maxChunkSize * 8) cs /\
  (forall i c, cs !! i = Some c -> (S i < length cs)%nat ->
               Z.of_nat (length c) = maxChunkSize * 8).
Proof.
  intros cs Hb Hmcs Hlen Hfuel Houts.
  destruct (chunks_spec (Z.to_nat (maxChunkSize * 8)) bits ltac:(lia))
    as (Hcat & Hall & Hfull).
  split; [|split; [done|split]].
  - unfold BitStringEncoder_encodeValue, py_bits. rewrite Hb.
    cbn [mbind result_bind].
    destruct (Z.eqb_spec maxChunkSize 0); [lia|].
    destruct (Z.leb_spec (Z.of_nat (length bits)) (maxChunkSize * 8)); [lia|].
    cbn [orb].
    erewrite (chunk_loop_spec
                (fun c => clone_body value (BitStringV c))
                (Z.to_nat (maxChunkSize * 8)) encodeFun _ _ defMode
                maxChunkSize _ _ fuel bits 0 null outs);
      [done | | done | done].
    intros j. rewrite py_slice_nonneg by nia.
    do 3 f_equal; [lia|].
    replace ((0 + Z.of_nat j * maxChunkSize) * 8)
      with (Z.of_nat j * (maxChunkSize * 8)) by lia.
    by rewrite Z2Nat.inj_mul, Nat2Z.id by lia.
    Unshelve. { by intros []. } { lia. }
  - eapply Forall_impl; [done|]. simpl. lia.
  - intros i c Hc Hi. rewrite (Hfull i c Hc Hi). lia.
Qed.

Lemma OctetStringEncoder_chunked_witness :
  let v := OctetString [81; 117; 105; 99; 107] in
  OctetStringEncoder_encodeValue 2 (@encode univHooks 3) v false 4
  = Ok ([4; 4; 81; 117; 105; 99; 4; 1; 107], true, v).
Proof.
  intros v.
  destruct (OctetStringEncoder_chunked 2 (@encode univHooks 3) v
              [81; 117; 105; 99; 107] false 4
              [([4; 4; 81; 117; 105; 99], OctetString [81; 117; 105; 99]);
               ([4; 1; 107], OctetString [107])])
    as (Hrun & _).
  - reflexivity.
  - simpl. lia.
  - vm_compute. lia.
  - replace (chunks (Z.to_nat 4) [81; 117; 105; 99; 107])
      with [[81; 117; 105; 99]; [107]] by (vm_compute; reflexivity).
    constructor; [vm_compute; reflexivity|].
    constructor; [vm_compute; reflexivity|]. constructor.
  - exact Hrun.
Defined.

Lemma BitStringEncoder_chunked_witness :
  let bits := [true; false; true; false; true; false; false; true;
               true; false; false; false; true; false; true] in
  let v := mkItem (univTagSet tagFormatSimple 3) (univTagSet tagFormatSimple 3)
             None (BitStringV bits) in
  BitStringEncoder_encodeValue 2 (@encode univHooks 3) v false 1
  = Ok ([3; 2; 0; 169; 3; 2; 1; 138], true, v).
Proof.
  intros bits v.
  destruct (BitStringEncoder_chunked 2 (@encode univHooks 3) v bits false 1
              [([3; 2; 0; 169], clone_body v (BitStringV (take 8 bits)));
               ([3; 2; 1; 138], clone_body v (BitStringV (drop 8 bits)))])
    as (Hrun & _).
  - reflexivity.
  - lia.
  - simpl. lia.
  - vm_compute. lia.
  - replace (chunks (Z.to_nat (1 * 8)) bits)
      with [take 8 bits; drop 8 bits] by (vm_compute; reflexivity).
    constructor; [vm_compute; reflexivity|].
    constructor; [vm_compute; reflexivity|]. constructor.
  - exact Hrun.
Defined.

(** ** BIT STRING, primitive form *)

Lemma testbit_b2z (bit : bool) (k : Z) :
  Z.testbit (Z.b2z bit) k = bit && (k =? 0).
Proof.
  destruct bit; simpl; [|apply Z.bits_0].
  change 1 with (2 ^ 0). rewrite Z.pow2_bits_eqb by lia. apply Z.eqb_sym.
Qed.

Lemma bits_packed_snoc done r bit :
  let p := Z.of_nat (length done) in
  let i := p `div` 8 in
  let j := p `mod` 8 in
  bits_packed done r ->
  bits_packed (done ++ [bit])
    (<[i := Z.lor (default 0 (r !! i)) (Z.shiftl (Z.b2z bit) (7 - j))]> r).
Proof.
  intros p i j [Hdom Hbits].
  pose proof (Z.div_mod p 8 ltac:(lia)) as Hdm.
  pose proof (Z.mod_pos_bound p 8 ltac:(lia)) as Hm.
  fold i j in Hdm, Hm.
  assert (p = Z.of_nat (length done)) as Hpdef by done.
  assert (0 <= p) as Hp by lia.
  assert (0 <= i) as Hi by (subst i; apply Z.div_pos; lia).
  assert (Z.of_nat (length (done ++ [bit])) = p + 1) as Hlen
    by (rewrite length_app; simpl; lia).
  assert (0 <= default 0 (r !! i) /\
          forall b, 0 <= b ->
            Z.testbit (default 0 (r !! i)) b
            = (b <? 8) && default false (done !! Z.to_nat (8 * i + 7 - b)))
    as [Hx0 Hx0bits].
  { destruct (r !! i) as [x0|] eqn:Hri; cbn [default].
    - by apply Hbits.
    - split; [done|]. intros b Hb. rewrite Z.bits_0.
      assert (~ (0 <= i /\ 8 * i < p)) as Hni.
      { intros Hin%Hdom. rewrite Hri in Hin. by destruct Hin. }
      destruct (Z.ltb_spec b 8); [|done].
      rewrite (lookup_ge_None_2 done) by lia. done. }
  split.
  - intros i'. rewrite lookup_insert_is_Some, Hlen, Hdom. fold p. split.
    + intros [<- | [_ ?]]; lia.
    + intros [? ?]. destruct (decide (i = i')) as [|Hne]; [by left|].
      right. split; [done|]. lia.
  - intros i' x Hx. apply lookup_insert_Some in Hx as [[<- <-] | [Hne Hx]].
    + split.
      { apply Z.lor_nonneg. split; [done|]. apply Z.shiftl_nonneg.
        by destruct bit. }
      intros b Hb.
      rewrite Z.lor_spec, Hx0bits, Z.shiftl_spec, testbit_b2z by done.
      destruct (Z.ltb_spec b 8); cbn [andb orb].
      * destruct (Z.eqb_spec (b - (7 - j)) 0) as [Heq | Hneq].
        -- replace (Z.to_nat (8 * i + 7 - b)) with (length done) by lia.
           rewrite (lookup_ge_None_2 done) by lia.
           rewrite list_lookup_middle by done. cbn [default orb].
           by rewrite andb_true_r.
        -- rewrite andb_false_r, orb_false_r.
           destruct (Z.lt_ge_cases (8 * i + 7 - b) p).
           ++ by rewrite lookup_app_l by lia.
           ++ rewrite (lookup_ge_None_2 done) by lia.
              rewrite (lookup_ge_None_2 (done ++ [bit]))
                by (rewrite length_app; simpl; lia).
              done.
      * destruct (Z.eqb_spec (b - (7 - j)) 0); [lia|]. by rewrite andb_false_r.
    + destruct (Hbits i' x Hx) as [Hxpos Hxbits]. split; [done|].
      intros b Hb. rewrite Hxbits by done.
      destruct (Z.ltb_spec b 8); cbn [andb]; [|done].
      assert (0 <= i' /\ 8 * i' < p) as [? ?] by (apply Hdom; by eexists).
      by rewrite lookup_app_l by lia.
Qed.

Lemma bits_loop_spec rest done r j :
  bits_packed done r ->
  exists r',
    bits_loop rest (Z.of_nat (length done)) r j
    = (r', match rest with
           | [] => j
           | _ => (Z.of_nat (length (done ++ rest)) - 1) `mod` 8
           end) /\
    bits_packed (done ++ rest) r'.
Proof.
  revert done r j. induction rest as [|bit rest IH]; intros done r j Hinv.
  - exists r. by rewrite app_nil_r.
  - cbn [bits_loop].
    pose proof (bits_packed_snoc done r bit Hinv) as Hstep. cbv zeta in Hstep.
    replace (Z.of_nat (length done) + 1)
      with (Z.of_nat (length (done ++ [bit])))
      by (rewrite length_app; simpl; lia).
    destruct (IH (done ++ [bit]) _ (Z.of_nat (length done) `mod` 8) Hstep)
      as (r' & -> & Hinv').
    exists r'. rewrite <- app_assoc in *. cbn [app] in *. split; [|done].
    f_equal. destruct rest; [|done].
    rewrite length_app. simpl. f_equal. lia.
Qed.

Lemma StronglySorted_seqZ m n : StronglySorted Z.le (seqZ m n).
Proof.
  destruct (Z.le_gt_cases n 0) as [Hn | Hn].
  { unfold seqZ. rewrite Z2Nat.nonpos by done. constructor. }
  rewrite <- (Z2Nat.id n) by lia. generalize (Z.to_nat n). clear n Hn.
  intros k. induction k as [|k IH]; [constructor|].
  rewrite seqZ_S. apply StronglySorted_app.
  split; [|split; [done | repeat constructor]].
  intros x y Hx%elem_of_seqZ Hy%list_elem_of_singleton. lia.
Qed.

(** The sorted keys of the dictionary are 0, 1, ... in order. *)
Lemma bits_packed_keys done r :
  bits_packed done r ->
  merge_sort Z.le (map_to_list r).*1
  = seqZ 0 ((Z.of_nat (length done) + 7) `div` 8).
Proof.
  intros [Hdom _].
  pose proof (Z.div_mod (Z.of_nat (length done) + 7) 8 ltac:(lia)) as Hdm.
  pose proof (Z.mod_pos_bound (Z.of_nat (length done) + 7) 8 ltac:(lia)) as Hm.
  apply (StronglySorted_unique Z.le).
  - apply StronglySorted_merge_sort; apply _.
  - apply StronglySorted_seqZ.
  - rewrite merge_sort_Permutation.
    apply NoDup_Permutation;
      [apply NoDup_fst_map_to_list | apply NoDup_seqZ |].
    intros i. rewrite elem_of_seqZ, list_elem_of_fmap. split.
    + intros ([i' x] & -> & Hin%elem_of_map_to_list). cbn [fst].
      assert (0 <= i' /\ 8 * i' < Z.of_nat (length done)) by (apply Hdom; by eexists).
      lia.
    + intros Hi. destruct (proj2 (Hdom i) ltac:(lia)) as [x Hx].
      exists (i, x). split; [done|]. by apply elem_of_map_to_list.
Qed.

Lemma bits_packed_octet done r i x :
  bits_packed done r -> r !! i = Some x -> is_octet x.
Proof.
  intros [_ Hbits] Hx. destruct (Hbits i x Hx) as [Hpos Hb].
  split; [done|].
  destruct (Z.lt_ge_cases x 256) as [|Hge]; [done|]. exfalso.
  assert (8 <= Z.log2 x) by (apply (Z.log2_le_mono 256 x); lia).
  pose proof (Z.bit_log2 x ltac:(lia)) as Hbit.
  rewrite Hb in Hbit by lia.
  by destruct (Z.ltb_spec (Z.log2 x) 8); [lia|].
Qed.

(** X21.  In primitive form BitStringEncoder.encodeValue packs the bits
    eight to an octet, the first bit highest, fills the last octet with zero
    bits, and puts in front the number of those fill bits, from 0 to 7. *)
Theorem BitStringEncoder_primitive (fuel : nat) (encodeFun : EncodeFun)
    (value : Asn1Item) (bits : list bool) (defMode : bool)
    (maxChunkSize : Z) :
  body value = BitStringV bits ->
  maxChunkSize = 0 \/ Z.of_nat (length bits) <= maxChunkSize * 8 ->
  exists (unused : Z) (octs : octets),
    BitStringEncoder_encodeValue fuel encodeFun value defMode maxChunkSize
      = Ok (unused :: octs, false, value) /\
    0 <= unused < 8 /\
    Z.of_nat (length bits) + unused = 8 * Z.of_nat (length octs) /\
    Forall is_octet octs /\
    (forall (i : nat) (x q : Z),
       octs !! i = Some x -> 0 <= q < 8 ->
       Z.testbit x (7 - q)
       = default false (bits !! (8 * i + Z.to_nat q)%nat)).
Proof.
  intros Hb Hfit.
  assert (bits_packed [] ∅) as Hinit.
  { split.
    - intros i. rewrite lookup_empty. simpl. split; [by intros [] | lia].
    - intros i x. by rewrite lookup_empty. }
  destruct (bits_loop_spec bits [] ∅ 7 Hinit) as (r & Hrun & Hinv).
  cbn [app length] in Hrun, Hinv. change (Z.of_nat 0) with 0 in Hrun.
  set (l := Z.of_nat (length bits)) in *.
  set (k := (l + 7) `div` 8).
  pose proof (Z.div_mod (l + 7) 8 ltac:(lia)) as Hdm.
  pose proof (Z.mod_pos_bound (l + 7) 8 ltac:(lia)) as Hm.
  fold k in Hdm.
  assert (0 <= l) as Hl by (subst l; lia).
  set (j := match bits with [] => 7 | _ => (l - 1) `mod` 8 end) in *.
  set (octs := (fun i => default 0 (r !! i)) <$> seqZ 0 k).
  assert (0 <= 7 - j < 8 /\ l + (7 - j) = 8 * k) as [Hj Hsum].
  { subst j. destruct bits as [|b0 bits'] eqn:Hbits.
    - subst l k. simpl in *. lia.
    - assert (1 <= l) by (subst l; simpl; lia).
      pose proof (Z.div_mod (l - 1) 8 ltac:(lia)).
      pose proof (Z.mod_pos_bound (l - 1) 8 ltac:(lia)).
      assert (k = (l - 1) `div` 8 + 1) by lia. lia. }
  assert (Forall is_octet octs) as Hoct.
  { apply Forall_forall. intros x (i & -> & Hi%elem_of_seqZ)%list_elem_of_fmap.
    destruct (r !! i) as [x|] eqn:Hx; cbn [default].
    - by eapply bits_packed_octet.
    - unfold is_octet. lia. }
  exists (7 - j), octs. split; [|split; [done|split; [|split; [done|]]]].
  - unfold BitStringEncoder_encodeValue, py_bits. rewrite Hb.
    cbn [mbind result_bind]. fold l.
    assert ((maxChunkSize =? 0) || (l <=? maxChunkSize * 8) = true) as ->.
    { apply orb_true_iff. destruct Hfit; [left | right]; lia. }
    rewrite Hrun, (bits_packed_keys bits r Hinv). fold l k octs.
    rewrite int2oct_ok by (unfold is_octet; lia).
    cbn [mbind result_bind]. by rewrite ints2octs_ok.
  - unfold octs. rewrite length_fmap, length_seqZ. lia.
  - intros i x q Hix Hq. unfold octs in Hix.
    apply list_lookup_fmap_Some in Hix as (i' & -> & Hi).
    apply lookup_seqZ in Hi as [-> Hi]. destruct Hinv as [Hdom Hbits].
    destruct (r !! (0 + Z.of_nat i)) as [x|] eqn:Hx; cbn [default].
    + destruct (Hbits _ x Hx) as [_ Hxb]. rewrite Hxb by lia.
      destruct (Z.ltb_spec (7 - q) 8); [|lia]. cbn [andb].
      do 2 f_equal. lia.
    + exfalso. assert (is_Some (r !! (0 + Z.of_nat i))) as [? ?]; [|congruence].
      apply Hdom. fold l. lia.
Qed.

Lemma BitStringEncoder_primitive_witness :
  let bits := [true; false; true; false; true; false; false; true;
               true; false; false; false; true; false; true] in
  let v := mkItem (univTagSet tagFormatSimple 3) (univTagSet tagFormatSimple 3)
             None (BitStringV bits) in
  exists (unused : Z) (octs : octets),
    BitStringEncoder_encodeValue 0 (@encode univHooks 0) v true 0
      = Ok (unused :: octs, false, v) /\
    0 <= unused < 8 /\
    Z.of_nat (length bits) + unused = 8 * Z.of_nat (length octs) /\
    Forall is_octet octs /\
    (forall (i : nat) (x q : Z),
       octs !! i = Some x -> 0 <= q < 8 ->
       Z.testbit x (7 - q)
       = default false (bits !! (8 * i + Z.to_nat q)%nat)).
Proof.
  intros bits v.
  apply (BitStringEncoder_primitive 0 (@encode univHooks 0) v bits true 0).
  - reflexivity.
  - left. reflexivity.
Defined.

(** ** REAL, base 2: the number the octets carry *)

(** X17.  For a positive mantissa and a positive exponent of at most three
    octets, the content is the first octet 0x80 with the number of exponent
    octets less one in its low bits, then the exponent and the mantissa as
    unsigned big-endian numbers without leading zero octets; the mantissa
    sent is odd and, with the exponent sent, gives the number encoded. *)
Theorem real_octets_value (fuel : nat) (m e : Z) :
  0 < m < 2 ^ Z.of_nat fuel ->
  0 < e -> e + Z.of_nat fuel < 256 ^ Z.of_nat (Nat.min fuel 3) ->
  exists (m' e' : Z) (eo po : octets),
    real_octets fuel (Finite m 2 e)
      = Ok (0x80 + (Z.of_nat (length eo) - 1) :: eo ++ po) /\
    (1 <= length eo <= 3)%nat /\
    Forall is_octet eo /\ Forall is_octet po /\
    be_unsigned 256 eo = e' /\ be_unsigned 256 po = m' /\
    0 < hd 0 eo /\ 0 < hd 0 po /\
    Z.odd m' = true /\ m' * 2 ^ e' = m * 2 ^ e.
Proof.
  intros Hm He Hfuel.
  destruct (real_normalize_spec fuel m e Hm) as (k & Hk & Hnorm & Hodd & Heq).
  set (m' := m `div` 2 ^ k) in *.
  assert (0 < 2 ^ k) as Hpk by (apply Z.pow_pos_nonneg; lia).
  assert (0 < m' <= m) as Hm'.
  { assert (0 <= m') by (apply Z.div_pos; lia).
    destruct (decide (m' = 0)) as [Hz|]; [rewrite Hz in Hodd; done|]. nia. }
  assert (k < Z.of_nat fuel) as Hkf.
  { destruct (Z.lt_ge_cases k (Z.of_nat fuel)) as [|Hge]; [done|]. exfalso.
    assert (2 ^ Z.of_nat fuel <= 2 ^ k) by (apply Z.pow_le_mono_r; lia). nia. }
  assert (256 ^ Z.of_nat (Nat.min fuel 3) <= 256 ^ Z.of_nat fuel) as Hmin1
    by (apply Z.pow_le_mono_r; lia).
  assert (256 ^ Z.of_nat (Nat.min fuel 3) <= 256 ^ 3) as Hmin3
    by (apply Z.pow_le_mono_r; lia).
  assert (2 ^ Z.of_nat fuel <= 256 ^ Z.of_nat fuel) as Hp2.
  { change 256 with (2 ^ 8). rewrite <- Z.pow_mul_r by lia.
    apply Z.pow_le_mono_r; lia. }
  destruct (be_loop_spec fuel (e + k) null ltac:(lia))
    as (eo & Heo & Heoct & Heval & _ & Hehd).
  destruct (be_loop_spec fuel m' null ltac:(lia))
    as (po & Hpo & Hpoct & Hpval & _ & Hphd).
  unfold null in Heo, Hpo. rewrite app_nil_r in Heo, Hpo.
  specialize (Hehd ltac:(lia)). specialize (Hphd ltac:(lia)).
  pose proof (be_unsigned_size 256 eo ltac:(lia) Heoct Hehd) as Hsize.
  rewrite Heval in Hsize.
  assert (1 <= length eo <= 3)%nat as Hlen.
  { split; [destruct eo; [simpl in Hehd; lia | simpl; lia]|].
    destruct (le_lt_dec (length eo) 3) as [|Hgt]; [done|]. exfalso.
    assert (256 ^ 3 <= 256 ^ (Z.of_nat (length eo) - 1))
      by (apply Z.pow_le_mono_r; lia). lia. }
  exists m', (e + k), eo, po.
  split.
  { unfold real_octets. destruct (Z.eqb_spec m 0); [lia|].
    cbn [Z.eqb Pos.eqb]. destruct (Z.ltb_spec m 0); [lia|].
    rewrite Hnorm. cbn [mbind result_bind]. unfold null. rewrite Heo.
    cbn [mbind result_bind].
    destruct (Z.ltb_spec 255 (Z.of_nat (length eo))); [lia|].
    assert (exists j, (j = 0 \/ j = 1 \/ j = 2) /\
                      Z.of_nat (length eo) - 1 = j /\
                      real_exp_header 128 eo = Ok (128 + j, eo))
      as (j & Hj & -> & ->).
    { unfold real_exp_header.
      destruct (Z.eqb_spec (Z.of_nat (length eo)) 1);
        [exists 0; split; [auto|]; split; [lia | done]|].
      destruct (Z.eqb_spec (Z.of_nat (length eo)) 2);
        [exists 1; split; [auto|]; split; [lia | done]|].
      destruct (Z.eqb_spec (Z.of_nat (length eo)) 3);
        [exists 2; split; [auto|]; split; [lia | done]|]. lia. }
    cbn [mbind result_bind]. rewrite Hpo. cbn [mbind result_bind].
    rewrite int2oct_ok by (unfold is_octet; lia). done. }
  split; [done|]. split; [done|]. split; [done|]. split; [done|].
  split; [done|]. split; [done|]. split; [done|]. split; [done|].
  rewrite Z.pow_add_r by lia. clearbody m'. rewrite Heq. ring.
Qed.

Lemma real_octets_value_witness :
  exists (m' e' : Z) (eo po : octets),
    real_octets 5 (Finite 12 2 3)
      = Ok (0x80 + (Z.of_nat (length eo) - 1) :: eo ++ po) /\
    (1 <= length eo <= 3)%nat /\
    Forall is_octet eo /\ Forall is_octet po /\
    be_unsigned 256 eo = e' /\ be_unsigned 256 po = m' /\
    0 < hd 0 eo /\ 0 < hd 0 po /\
    Z.odd m' = true /\ m' * 2 ^ e' = 12 * 2 ^ 3.
Proof.
  apply (real_octets_value 5 12 3); [simpl; lia | lia | simpl; lia].
Defined.

Lemma real_octets_returns_witness :
  real_octets 4 (Finite (- 10) 2 7) <> OutOfFuel.
Proof.
  apply (real_octets_returns 4 (- 10) 7); [lia | simpl; lia | lia | simpl; lia].
Defined.
